(** * Navigation decision core of the DDMR VFH collision-avoidance robot

    A shallow embedding of [modules/arduino_comm.py], [modules/kinect_vfh.py],
    [modules/aruco_tracker.py] and [main.py], and the properties of the
    command dispatcher, the avoidance controller, the sector classifier,
    the decision arbiter and the control loop.

    Conventions.  Python strings are [string]; a value that may be [None]
    is an [option]; a [dict] keyed by strings is a [gmap string _].
    Objects are records and a method takes the receiver and returns it
    updated.  What a method does to the outside world (bytes handed to the
    serial port, calls made on the dispatcher) is returned as a trace of
    events, oldest first.  Wall-clock readings and distances that the code
    only subtracts and compares are IEEE binary64 values ([float], as
    Python's [float]); the sector classifier, whose arithmetic goes through
    numpy's trigonometry, is modelled over the real numbers. *)

From Stdlib Require Import Reals Lra Floats.
From stdpp Require Import gmap strings list fin_maps.
From stdpp Require Import sorting.

Set Warnings "-inexact-float".

Open Scope string_scope.
Open Scope list_scope.

(** ** The command dispatcher: [modules/arduino_comm.py] *)

Module Arduino.

(** The [serial.Serial] object: whether the port is open, and what the
    transport will do on the coming calls of [write] ([true]: the call
    raises).  An exhausted list means that every further write succeeds. *)
Record Serial := mkSerial {
  is_open : bool;
  faults : list bool
}.

(** What the dispatcher does to the port. *)
Inductive event :=
| Write (data : string) (ok : bool)   (* [serial.write(data)]; [ok = false]: it raised *)
| ClosePort.                          (* [serial.close()] *)

#[global] Instance event_eq_dec : EqDecision event.
Proof. solve_decision. Defined.

(** The line feed that ends a command on the wire, and the payload
    [f"{command}\n".encode()]. *)
Definition LF : string := String (Ascii.ascii_of_nat 10) EmptyString.

Definition payload (command : string) : string := command +:+ LF.

(** [self.serial.write(data)]: the outcome ([true]: raised) and the port. *)
Definition write (s : Serial) : bool * Serial :=
  match faults s with
  | [] => (false, s)
  | f :: fs => (f, {| is_open := is_open s; faults := fs |})
  end.

Record ArduinoComm := mkArduino {
  serial : option Serial;
  last_command : option string;
  connected : bool
}.

(** [__init__] followed by [_connect]: [port] is what [serial.Serial(...)]
    produced, [None] when it raised. *)
Definition init (port : option Serial) : ArduinoComm :=
  {| serial := port; last_command := None; connected := bool_decide (is_Some port) |}.

Definition valid_commands : list string := ["FORWARD"; "LEFT"; "RIGHT"; "STOP"].

(** [command in valid_commands], for a [command] that is a string or [None]. *)
Definition is_valid (command : option string) : bool :=
  match command with
  | Some c => bool_decide (c ∈ valid_commands)
  | None => false
  end.

(** [self.connected and self.serial and self.serial.is_open] *)
Definition link_up (self : ArduinoComm) : bool :=
  connected self && match serial self with Some s => is_open s | None => false end.

(** [send_command]: the returned flag, the dispatcher afterwards, and the
    port events of the call. *)
Definition send_command (command : option string) (self : ArduinoComm)
  : bool * ArduinoComm * list event :=
  match command with
  | None => (false, self, [])
  | Some c =>
    if negb (is_valid command) then (false, self, [])
    else if bool_decide (command = last_command self) then (true, self, [])
    else
      match serial self with
      | Some s =>
        if connected self && is_open s then
          let '(raised, s') := write s in
          if raised then
            (false,
             {| serial := Some s'; last_command := last_command self; connected := false |},
             [Write (payload c) false])
          else
            (true,
             {| serial := Some s'; last_command := command; connected := connected self |},
             [Write (payload c) true])
        else
          (true,
           {| serial := serial self; last_command := command; connected := connected self |},
           [])
      | None =>
        (true,
         {| serial := serial self; last_command := command; connected := connected self |},
         [])
      end
  end.

Definition is_connected (self : ArduinoComm) : bool := connected self.

Definition get_last_command (self : ArduinoComm) : option string := last_command self.

(** [close]: the body of the [try] runs only for a port that exists and is
    open; a raising [write] skips [serial.close()]. *)
Definition close (self : ArduinoComm) : ArduinoComm * list event :=
  let evs :=
    match serial self with
    | Some s =>
      if is_open s then
        let '(raised, _) := write s in
        if raised then [Write (payload "STOP") false]
        else [Write (payload "STOP") true; ClosePort]
      else []
    | None => []
    end in
  ({| serial := None; last_command := None; connected := false |}, evs).

(** The write attempts of a trace, and those that went through. *)
Definition attempts (evs : list event) : list string :=
  omap (λ e, match e with Write d _ => Some d | ClosePort => None end) evs.

Definition transmissions (evs : list event) : list string :=
  omap (λ e, match e with Write d true => Some d | _ => None end) evs.

(** Running [send_command] on a list of commands, one call after the
    other: the flags, the final dispatcher, and the concatenated trace. *)
Fixpoint send_all (commands : list (option string)) (self : ArduinoComm)
  : list bool * ArduinoComm * list event :=
  match commands with
  | [] => ([], self, [])
  | c :: cs =>
    let '(ok, self1, evs1) := send_command c self in
    let '(oks, self2, evs2) := send_all cs self1 in
    (ok :: oks, self2, evs1 ++ evs2)
  end.

(** Example dispatchers.  In simulation mode: the port could not be opened. *)
Definition simulated : ArduinoComm := init None.

(** Connected, the next write raises; the last command is FORWARD. *)
Definition failing : ArduinoComm :=
  {| serial := Some {| is_open := true; faults := [true] |};
     last_command := Some "FORWARD";
     connected := true |}.

(** Connected on a healthy port; the last command is FORWARD. *)
Definition moving : ArduinoComm :=
  {| serial := Some {| is_open := true; faults := [] |};
     last_command := Some "FORWARD";
     connected := true |}.

(** Connected on a healthy port; the last command is STOP. *)
Definition stopped : ArduinoComm :=
  {| serial := Some {| is_open := true; faults := [] |};
     last_command := Some "STOP";
     connected := true |}.

(** [_connect] on an existing dispatcher: [port] is what
    [serial.Serial(...)] produced, [None] when it raised. *)
Definition connect (self : ArduinoComm) (port : option Serial) : ArduinoComm :=
  {| serial := port; last_command := last_command self;
     connected := bool_decide (is_Some port) |}.

(** [reconnect]: [close], then [_connect]. *)
Definition reconnect (self : ArduinoComm) (port : option Serial)
  : ArduinoComm * list event :=
  let '(self1, evs) := close self in (connect self1 port, evs).

(** The dispatcher remembers no command, or a valid one. *)
Definition last_command_valid (self : ArduinoComm) : Prop :=
  last_command self = None ∨ is_valid (last_command self) = true.

(** No two neighbours of [l] are equal. *)
Fixpoint distinct_neighbours {A} (l : list A) : Prop :=
  match l with
  | x :: l' =>
    match l' with
    | y :: _ => x ≠ y ∧ distinct_neighbours l'
    | [] => True
    end
  | [] => True
  end.

(** The port object exists and is open. *)
Definition port_open (self : ArduinoComm) : Prop :=
  ∃ s, serial self = Some s ∧ is_open s = true.

(** No coming write on the port raises. *)
Definition healthy (self : ArduinoComm) : Prop :=
  ∀ s, serial self = Some s → faults s = [].

End Arduino.

(** ** The sector classifier and the avoidance controller: [modules/kinect_vfh.py] *)

Module Np.

(** The numpy and [math] operations the classifier uses, over the reals. *)

#[global] Instance Rlt_decision (x y : R) : Decision (x < y)%R := Rlt_dec x y.
#[global] Instance Rle_decision (x y : R) : Decision (x <= y)%R := Rle_dec x y.

(** [math.radians] *)
Definition radians (deg : R) : R := (deg * PI / 180)%R.

(** [np.arctan2(y, x)] *)
Definition arctan2 (y x : R) : R :=
  if decide (0 < x)%R then atan (y / x)
  else if decide (x < 0)%R then
    if decide (0 <= y)%R then (atan (y / x) + PI)%R else (atan (y / x) - PI)%R
  else if decide (0 < y)%R then (PI / 2)%R
  else if decide (y < 0)%R then (- (PI / 2))%R
  else 0%R.

(** [a % b] on floats: the remainder has the sign of [b]. *)
Definition mod_ (a b : R) : R := (a - b * IZR (Int_part (a / b)))%R.

(** [a[mask]]: the entries of [a] where the boolean array [mask] is true. *)
Fixpoint select {A} (mask : list bool) (a : list A) : list A :=
  match mask, a with
  | m :: mask', v :: a' => if m then v :: select mask' a' else select mask' a'
  | _, _ => []
  end.

(** [np.any(mask)] *)
Definition any (mask : list bool) : bool := existsb (λ b, b) mask.

(** [np.min(a)] of a one-dimensional array (numpy raises on an empty one;
    the classifier calls it behind [np.any]). *)
Definition min (a : list R) : R :=
  match a with
  | [] => 0%R
  | v :: a' => foldl Rmin v a'
  end.

(** [a.ravel()]: a two-dimensional array, given by its rows, in row-major order. *)
Definition ravel {A} (a : list (list A)) : list A := concat a.

(** [a.shape[1]] *)
Definition ncols {A} (a : list (list A)) : nat :=
  match a with
  | [] => 0
  | row :: _ => length row
  end.

(** The first component of [np.meshgrid(np.arange(cols), np.arange(rows))]:
    [rows] rows, each holding the column indices.  (The second component,
    the row indices, only feeds [y], which the classifier never reads.) *)
Definition meshgrid_c (rows cols : nat) : list (list nat) := replicate rows (seq 0 cols).

End Np.

Module VFH.

Record KinectVFH := mkKinectVFH {
  fx : R;
  fy : R;
  cx : R;
  cy : R;
  threshold_distance : R;
  num_sectors : Z;
  turn_duration : float;
  forward_duration : float;
  sector_labels : list string;
  current_command : option string;
  command_start_time : float;
  turn_direction : option string;
  angle_y : R;
  zoom : R
}.

(** The five sector names, leftmost first. *)
Definition labels : list string := ["Kiri"; "Kiri-Depan"; "Tengah"; "Kanan-Depan"; "Kanan"].

(** [__init__]; [now] is the reading of [time.time()]. *)
Definition init (threshold_distance : R) (num_sectors : Z)
    (turn_duration forward_duration : float) (now : float) : KinectVFH :=
  {| fx := 525; fy := 525; cx := 319.5; cy := 239.5;
     threshold_distance := threshold_distance;
     num_sectors := num_sectors;
     turn_duration := turn_duration;
     forward_duration := forward_duration;
     sector_labels := labels;
     current_command := Some "FORWARD";
     command_start_time := now;
     turn_direction := None;
     angle_y := 0;
     zoom := 1.5 |}.

(** The constructor's default arguments. *)
Definition init_default (now : float) : KinectVFH := init 1 5 0.2%float 0.4%float now.

(** [enumerate(labels)] *)
Definition enumerate {A} (l : list A) : list (nat * A) := zip (seq 0 (length l)) l.

(** The azimuth bin [theta_min <= t < theta_max] of sector [i]. *)
Definition theta_min (self : KinectVFH) (i : nat) : R :=
  (INR i * (PI / IZR (num_sectors self)))%R.

Definition theta_max (self : KinectVFH) (i : nat) : R :=
  (INR (i + 1) * (PI / IZR (num_sectors self)))%R.

(** [analyze_sectors].  (With [num_sectors = 0] the division raises in
    Python as soon as there is a label; the properties below are stated
    for [num_sectors <> 0].) *)
Definition analyze_sectors (self : KinectVFH) (depth_frame : option (list (list R)))
  : gmap string string :=
  match depth_frame with
  | None => foldl (λ status label, <[label := "Low"]> status) ∅ (sector_labels self)
  | Some depth =>
    let rows := length depth in
    let cols := Np.ncols depth in
    let c := Np.meshgrid_c rows cols in
    let valid := Np.ravel (map (map (λ v, bool_decide (0 < v)%R)) depth) in
    let z := Np.select valid (Np.ravel depth) in
    let x := zip_with (λ cv zv, ((INR cv - cx self) * zv / fx self)%R)
                      (Np.select valid (Np.ravel c)) z in
    let theta := Np.radians (angle_y self) in
    let cos_t := cos theta in
    let sin_t := sin theta in
    let x_rot := zip_with (λ xv zv, (cos_t * xv + sin_t * zv)%R) x z in
    let z_rot := zip_with (λ xv zv, (- sin_t * xv + cos_t * zv)%R) x z in
    let theta_point := zip_with Np.arctan2 x_rot z_rot in
    let theta_point := map (λ t, Np.mod_ t PI) theta_point in
    foldl (λ sector_status '(i, label),
             let mask_sector :=
               map (λ t, bool_decide (theta_min self i <= t)%R
                         && bool_decide (t < theta_max self i)%R) theta_point in
             if Np.any mask_sector then
               let min_distance := Np.min (Np.select mask_sector z) in
               <[label := if bool_decide (min_distance < threshold_distance self)%R
                          then "High" else "Low"]> sector_status
             else
               <[label := "Low"]> sector_status)
          ∅ (enumerate (sector_labels self))
  end.

(** [is_all_clear] *)
Definition is_all_clear (sector_status : gmap string string) : bool :=
  bool_decide (map_Forall (λ _ status, status = "Low") sector_status).

(** [sector_status.get(label, "Low")] *)
Definition get (sector_status : gmap string string) (label : string) : string :=
  default "Low" (sector_status !! label).

(** [any(status == "High" for status in sector_status.values())] *)
Definition obstacle_detected (sector_status : gmap string string) : bool :=
  bool_decide (map_Exists (λ _ status, status = "High") sector_status).

(** The [if/elif/elif] chain that sets [self.turn_direction]; when no
    branch applies the attribute keeps its value. *)
Definition choose_turn (sector_status : gmap string string) (previous : option string)
  : option string :=
  if bool_decide (get sector_status "Kiri" = "High")
     || bool_decide (get sector_status "Kiri-Depan" = "High") then Some "RIGHT"
  else if bool_decide (get sector_status "Kanan" = "High")
          || bool_decide (get sector_status "Kanan-Depan" = "High") then Some "LEFT"
  else if bool_decide (get sector_status "Tengah" = "High") then
    if bool_decide (get sector_status "Kiri-Depan" = "Low") then Some "LEFT"
    else Some "RIGHT"
  else previous.

Definition set_command (self : KinectVFH) (command : option string) (start : float)
    (turn : option string) : KinectVFH :=
  {| fx := fx self; fy := fy self; cx := cx self; cy := cy self;
     threshold_distance := threshold_distance self;
     num_sectors := num_sectors self;
     turn_duration := turn_duration self;
     forward_duration := forward_duration self;
     sector_labels := sector_labels self;
     current_command := command;
     command_start_time := start;
     turn_direction := turn;
     angle_y := angle_y self;
     zoom := zoom self |}.

(** [get_vfh_command]; [now] is the reading of [time.time()].  Returns
    the command and the controller afterwards. *)
Definition get_vfh_command (self : KinectVFH) (sector_status : gmap string string)
    (now : float) : option string * KinectVFH :=
  let elapsed := (now - command_start_time self)%float in
  if negb (obstacle_detected sector_status) then
    if bool_decide (current_command self ≠ Some "FORWARD") then
      (Some "FORWARD", set_command self (Some "FORWARD") now (turn_direction self))
    else (current_command self, self)
  else
    let turn := choose_turn sector_status (turn_direction self) in
    if bool_decide (current_command self = Some "FORWARD") then
      if (forward_duration self <=? elapsed)%float then
        (turn, set_command self turn now turn)
      else
        (current_command self,
         set_command self (current_command self) (command_start_time self) turn)
    else if bool_decide (current_command self ∈ [Some "LEFT"; Some "RIGHT"]) then
      if (turn_duration self <=? elapsed)%float then
        (Some "FORWARD", set_command self (Some "FORWARD") now turn)
      else
        (current_command self,
         set_command self (current_command self) (command_start_time self) turn)
    else
      (current_command self,
       set_command self (current_command self) (command_start_time self) turn).

(** Successive calls of [get_vfh_command], one per (sector status, clock
    reading): the commands returned and the controller at the end. *)
Fixpoint get_vfh_commands (self : KinectVFH) (inputs : list (gmap string string * float))
  : list (option string) * KinectVFH :=
  match inputs with
  | [] => ([], self)
  | (sector_status, now) :: rest =>
    let '(command, self1) := get_vfh_command self sector_status now in
    let '(commands, self2) := get_vfh_commands self1 rest in
    (command :: commands, self2)
  end.

(** The vocabulary of the specification.  A sector is Obstructed when its
    status is "High", Clear when it is "Low" (a sector the dictionary
    does not mention counts as Clear, as [get] has it). *)
Definition Obstructed (sector_status : gmap string string) (label : string) : Prop :=
  sector_status !! label = Some "High".

Definition Clear (sector_status : gmap string string) (label : string) : Prop :=
  get sector_status label = "Low".

#[global] Instance Obstructed_dec sector_status label :
  Decision (Obstructed sector_status label).
Proof. unfold Obstructed. apply _. Defined.

#[global] Instance Clear_dec sector_status label :
  Decision (Clear sector_status label).
Proof. unfold Clear. apply _. Defined.

(** A depth map is a two-dimensional array: all rows have the same length. *)
Definition rectangular (depth : list (list R)) : Prop :=
  Forall (λ row, length row = Np.ncols depth) depth.

(** The azimuth of the point seen at column [c] with depth [z]:
    backprojected, rotated by the view yaw, reduced modulo pi. *)
Definition azimuth (self : KinectVFH) (c : nat) (z : R) : R :=
  let x := ((INR c - cx self) * z / fx self)%R in
  let theta := Np.radians (angle_y self) in
  let x_rot := (cos theta * x + sin theta * z)%R in
  let z_rot := (- sin theta * x + cos theta * z)%R in
  Np.mod_ (Np.arctan2 x_rot z_rot) PI.

(** [z] is the depth of a valid point that falls into sector [i]. *)
Definition assigned (self : KinectVFH) (depth : list (list R)) (i : nat) (z : R) : Prop :=
  ∃ (r c : nat) (row : list R),
    depth !! r = Some row ∧ row !! c = Some z ∧ (0 < z)%R ∧
    (theta_min self i <= azimuth self c z)%R ∧ (azimuth self c z < theta_max self i)%R.

(** [m] is the least of the numbers that satisfy [P]. *)
Definition is_minimum (P : R → Prop) (m : R) : Prop :=
  P m ∧ ∀ z, P z → (m <= z)%R.




(** The pixels of a depth map in row-major order, each with its column. *)
Definition points (depth : list (list R)) : list (nat * R) :=
  concat (map (λ row, zip (seq 0 (length row)) row) depth).

(** The classifier read point by point: the valid points, the test that
    a point falls into sector [i], and the status of sector [i]. *)
Definition valid_points (depth : list (list R)) : list (nat * R) :=
  List.filter (λ pt, bool_decide (0 < pt.2)%R) (points depth).

Definition in_sector (self : KinectVFH) (i : nat) (pt : nat * R) : bool :=
  bool_decide (theta_min self i <= azimuth self pt.1 pt.2)%R
  && bool_decide (azimuth self pt.1 pt.2 < theta_max self i)%R.

Definition sector_state (self : KinectVFH) (depth : list (list R)) (i : nat) : string :=
  if existsb (in_sector self i) (valid_points depth) then
    if bool_decide (Np.min (map snd (List.filter (in_sector self i) (valid_points depth)))
                    < threshold_distance self)%R
    then "High" else "Low"
  else "Low".

(** A sector status keyed by (some of) the five sector names. *)
Definition keyed_by_labels (sector_status : gmap string string) : Prop :=
  map_Forall (λ label _, label ∈ labels) sector_status.

(** The commands of the avoidance controller. *)
Definition motion (command : option string) : Prop :=
  command = Some "FORWARD" ∨ command = Some "LEFT" ∨ command = Some "RIGHT".

(** A depth frame of one scan line, 640 pixels wide, whose only return is
    at column 320, half a metre away. *)
Definition scan_line : list (list R) :=
  [replicate 320 0%R ++ [0.5%R] ++ replicate 319 0%R].





(** All sectors Clear but the left-front one. *)
Definition left_front_blocked : gmap string string :=
  <["Kiri-Depan" := "High"]> (analyze_sectors (init_default 0) None).

(** [calculate_histogram]: one entry per sector, the least depth of the
    sector capped at 2.  ([np.zeros] raises on a negative [num_sectors],
    which [Z.to_nat] reads as zero.) *)
Definition calculate_histogram (self : KinectVFH) (depth_frame : option (list (list R)))
  : list R :=
  let n := Z.to_nat (num_sectors self) in
  let histogram := replicate n 0%R in
  match depth_frame with
  | None => histogram
  | Some depth =>
    let rows := length depth in
    let cols := Np.ncols depth in
    let c := Np.meshgrid_c rows cols in
    let valid := Np.ravel (map (map (λ v, bool_decide (0 < v)%R)) depth) in
    let z := Np.select valid (Np.ravel depth) in
    let x := zip_with (λ cv zv, ((INR cv - cx self) * zv / fx self)%R)
                      (Np.select valid (Np.ravel c)) z in
    let theta := Np.radians (angle_y self) in
    let cos_t := cos theta in
    let sin_t := sin theta in
    let x_rot := zip_with (λ xv zv, (cos_t * xv + sin_t * zv)%R) x z in
    let z_rot := zip_with (λ xv zv, (- sin_t * xv + cos_t * zv)%R) x z in
    let theta_point := zip_with Np.arctan2 x_rot z_rot in
    let theta_point := map (λ t, Np.mod_ t PI) theta_point in
    foldl (λ histogram i,
             let mask_sector :=
               map (λ t, bool_decide (theta_min self i <= t)%R
                         && bool_decide (t < theta_max self i)%R) theta_point in
             if Np.any mask_sector then
               let min_distance := Np.min (Np.select mask_sector z) in
               <[i := if bool_decide (min_distance < 2)%R then min_distance else 2%R]>
                 histogram
             else
               <[i := 2%R]> histogram)
          histogram (seq 0 n)
  end.

(** The histogram entry of sector [i], read point by point. *)
Definition histogram_entry (self : KinectVFH) (depth : list (list R)) (i : nat) : R :=
  if existsb (in_sector self i) (valid_points depth) then
    if bool_decide (Np.min (map snd (List.filter (in_sector self i) (valid_points depth)))
                    < 2)%R
    then Np.min (map snd (List.filter (in_sector self i) (valid_points depth)))
    else 2%R
  else 2%R.

(** The view the constructor sets: its intrinsics, no yaw, five sectors
    under the five labels. *)
Definition default_view (self : KinectVFH) : Prop :=
  cx self = 319.5%R ∧ fx self = 525%R ∧ angle_y self = 0%R ∧
  num_sectors self = 5%Z ∧ sector_labels self = labels.

(** The depth map has a valid reading [z] in column [c]. *)
Definition return_at (depth : list (list R)) (c : nat) (z : R) : Prop :=
  ∃ (r : nat) (row : list R), depth !! r = Some row ∧ row !! c = Some z ∧ (0 < z)%R.

End VFH.

(** ** The tracking mapper: [modules/aruco_tracker.py] *)

Module Aruco.

(** The dictionary [detect] returns, completed by the control loop with
    the distance [calculate_distance] found ([None]: no valid depth sample).
    The detection itself (image processing) is an input of the model. *)
Record result := mkResult {
  detected : bool;
  marker_id : option Z;
  center_x : option Z;
  center_y : option Z;
  zone : option string;
  distance : option float
}.

(** [get_tracking_command] *)
Definition get_tracking_command (detection_result : result) : option string :=
  if negb (detected detection_result) then None
  else if bool_decide (zone detection_result = Some "LEFT") then Some "RIGHT"
  else if bool_decide (zone detection_result = Some "RIGHT") then Some "LEFT"
  else Some "FORWARD".

(** The tracker: the frame size and the zone boundaries that [__init__]
    derives from the frame width. *)
Record ArucoTracker := mkTracker {
  frame_width : Z;
  frame_height : Z;
  left_bound : Z;
  right_bound : Z
}.

(** [_get_zone] *)
Definition _get_zone (self : ArucoTracker) (x_position : Z) : string :=
  if decide (x_position < left_bound self)%Z then "LEFT"
  else if decide (x_position > right_bound self)%Z then "RIGHT"
  else "CENTER".

(** [detect], from the outcome of [aruco.detectMarkers] on: [found] is
    the identifier and the centre of the first marker, [None] when no
    marker was found.  (The corner points are left out.) *)
Definition detect (self : ArucoTracker) (found : option (Z * Z * Z)) : result :=
  match found with
  | Some (id, x, y) =>
    {| detected := true; marker_id := Some id; center_x := Some x; center_y := Some y;
       zone := Some (_get_zone self x); distance := None |}
  | None =>
    {| detected := false; marker_id := None; center_x := None; center_y := None;
       zone := None; distance := None |}
  end.

(** [a[lo:hi]] for indices that are not negative. *)
Definition slice {A} (lo hi : nat) (a : list A) : list A := take (hi - lo) (drop lo a).

(** [np.median] of a one-dimensional array that is not empty. *)
Definition median (a : list R) : R :=
  let sorted := merge_sort Rle a in
  let n := length sorted in
  if Nat.even n then ((nth (n / 2 - 1) sorted 0 + nth (n / 2) sorted 0) / 2)%R
  else nth (n / 2) sorted 0%R.

(** [calculate_distance], over the reals; the sample radius is not negative. *)
Definition calculate_distance (depth_frame : option (list (list R)))
    (center_x center_y : Z) (sample_radius : nat) : option R :=
  match depth_frame with
  | None => None
  | Some depth =>
    let h := Z.of_nat (length depth) in
    let w := Z.of_nat (Np.ncols depth) in
    if decide (center_x < 0 ∨ center_x >= w ∨ center_y < 0 ∨ center_y >= h)%Z then None
    else
      let y_min := Z.to_nat (Z.max 0 (center_y - Z.of_nat sample_radius)) in
      let y_max := Z.to_nat (Z.min h (center_y + Z.of_nat sample_radius)) in
      let x_min := Z.to_nat (Z.max 0 (center_x - Z.of_nat sample_radius)) in
      let x_max := Z.to_nat (Z.min w (center_x + Z.of_nat sample_radius)) in
      let depth_sample := map (slice x_min x_max) (slice y_min y_max depth) in
      let valid_depths := List.filter (λ v, bool_decide (0 < v)%R) (concat depth_sample) in
      if decide (length valid_depths = 0%nat) then None
      else Some (median valid_depths)
  end.

(** [z] is a valid reading of the window around the centre: rows
    [center_y - radius] up to, not including, [center_y + radius], and
    columns likewise. *)
Definition sampled (depth : list (list R)) (center_x center_y : Z) (sample_radius : nat)
    (z : R) : Prop :=
  ∃ (r c : nat) (row : list R),
    depth !! r = Some row ∧ row !! c = Some z ∧ (0 < z)%R ∧
    (center_y - Z.of_nat sample_radius <= Z.of_nat r < center_y + Z.of_nat sample_radius)%Z ∧
    (center_x - Z.of_nat sample_radius <= Z.of_nat c < center_x + Z.of_nat sample_radius)%Z.

(** The centre lies outside the frame. *)
Definition outside (depth : list (list R)) (center_x center_y : Z) : Prop :=
  (center_x < 0 ∨ center_x >= Z.of_nat (Np.ncols depth) ∨
   center_y < 0 ∨ center_y >= Z.of_nat (length depth))%Z.

(** Frames of three rows and three columns with a single valid reading,
    0.8 m: in the middle, and in the lower right corner. *)
Definition centre_return : list (list R) :=
  [[0; 0; 0]; [0; 0.8; 0]; [0; 0; 0]]%R.

Definition corner_return : list (list R) :=
  [[0; 0; 0]; [0; 0; 0]; [0; 0; 0.8]]%R.

(** The tracker for a frame 640 pixels wide: bounds 211 and 428. *)
Definition tracker_640 : ArucoTracker :=
  {| frame_width := 640; frame_height := 480; left_bound := 211; right_bound := 428 |}.

End Aruco.

(** ** The arbiter and the control loop: [main.py] *)

Module Robot.

(** The settings of [config.py] that the controller reads; the file is
    not among the sources, so the settings are a parameter of the model. *)
Record Config := mkConfig {
  ARUCO_APPROACH_DISTANCE : float;
  SEARCH_MODE_BEHAVIOR : string;
  VFH_THRESHOLD_DISTANCE : R;
  VFH_NUM_SECTORS : Z;
  VFH_TURN_DURATION : float;
  VFH_FORWARD_DURATION : float
}.

Record RobotController := mkRobot {
  vfh : VFH.KinectVFH;
  arduino : Arduino.ArduinoComm;
  mode : string;
  current_command : option string;
  running : bool;
  force_mode : option string
}.

(** What the controller does to the dispatcher and, through it, to the port. *)
Inductive obs :=
| Dispatch (command : option string)   (* a call [self.arduino.send_command(command)] *)
| Port (e : Arduino.event)
| CleanupVFH.                          (* [self.vfh.cleanup()] *)

(** The commands handed to [send_command], in order. *)
Definition dispatches (tr : list obs) : list (option string) :=
  omap (λ o, match o with Dispatch c => Some c | _ => None end) tr.

(** The port events of a trace. *)
Definition port_events (tr : list obs) : list Arduino.event :=
  omap (λ o, match o with Port e => Some e | _ => None end) tr.

(** [__init__]: [port] is the outcome of opening the serial port and
    [now] the clock reading taken by the avoidance controller. *)
Definition init (cfg : Config) (port : option Arduino.Serial) (now : float) : RobotController :=
  {| vfh := VFH.init (VFH_THRESHOLD_DISTANCE cfg) (VFH_NUM_SECTORS cfg)
                     (VFH_TURN_DURATION cfg) (VFH_FORWARD_DURATION cfg) now;
     arduino := Arduino.init port;
     mode := "INIT";
     current_command := Some "STOP";
     running := true;
     force_mode := None |}.

Definition set_mode (self : RobotController) (m : string) : RobotController :=
  {| vfh := vfh self; arduino := arduino self; mode := m;
     current_command := current_command self; running := running self;
     force_mode := force_mode self |}.

Definition set_force_mode (self : RobotController) (f : option string) : RobotController :=
  {| vfh := vfh self; arduino := arduino self; mode := mode self;
     current_command := current_command self; running := running self;
     force_mode := f |}.

Definition set_vfh (self : RobotController) (v : VFH.KinectVFH) : RobotController :=
  {| vfh := v; arduino := arduino self; mode := mode self;
     current_command := current_command self; running := running self;
     force_mode := force_mode self |}.

Definition set_arduino (self : RobotController) (a : Arduino.ArduinoComm) : RobotController :=
  {| vfh := vfh self; arduino := a; mode := mode self;
     current_command := current_command self; running := running self;
     force_mode := force_mode self |}.

Definition set_current_command (self : RobotController) (c : option string) : RobotController :=
  {| vfh := vfh self; arduino := arduino self; mode := mode self;
     current_command := c; running := running self;
     force_mode := force_mode self |}.

(** [decision_logic]: the final command and the controller with [mode] set. *)
Definition decision_logic (cfg : Config) (self : RobotController) (path_clear : bool)
    (sector_status : gmap string string) (vfh_cmd : option string)
    (aruco_result : Aruco.result) (aruco_cmd : option string)
  : option string * RobotController :=
  if bool_decide (force_mode self = Some "VFH_ONLY") then
    (vfh_cmd, set_mode self "VFH_ACTIVE")
  else if bool_decide (force_mode self = Some "ARUCO_ONLY") then
    if Aruco.detected aruco_result then (aruco_cmd, set_mode self "ARUCO_TRACKING")
    else (Some "STOP", set_mode self "SEARCH")
  else if negb path_clear then
    (vfh_cmd, set_mode self "VFH_ACTIVE")
  else if Aruco.detected aruco_result then
    match Aruco.distance aruco_result with
    | Some d =>
      if (d <? ARUCO_APPROACH_DISTANCE cfg)%float then
        (Some "STOP", set_mode self "ARUCO_REACHED")
      else (aruco_cmd, set_mode self "ARUCO_TRACKING")
    | None => (aruco_cmd, set_mode self "ARUCO_TRACKING")
    end
  else if bool_decide (SEARCH_MODE_BEHAVIOR cfg = "STOP") then
    (Some "STOP", set_mode self "SEARCH")
  else
    (Some "STOP", set_mode self "SEARCH").

(** A call [self.arduino.send_command(command)] made by the controller. *)
Definition dispatch (self : RobotController) (command : option string)
  : RobotController * list obs :=
  let '(_, a, evs) := Arduino.send_command command (arduino self) in
  (set_arduino self a, Dispatch command :: map Port evs).

(** [handle_keyboard]; [key] is [cv2.waitKey(1) & 0xFF], and
    113, 49, 50, 51 and 32 are [ord] of q, 1, 2, 3 and the space bar. *)
Definition handle_keyboard (self : RobotController) (key : Z)
  : bool * RobotController * list obs :=
  if bool_decide (key = 113%Z) then (false, self, [])
  else if bool_decide (key = 49%Z) then (true, set_force_mode self (Some "VFH_ONLY"), [])
  else if bool_decide (key = 50%Z) then (true, set_force_mode self (Some "ARUCO_ONLY"), [])
  else if bool_decide (key = 51%Z) then (true, set_force_mode self None, [])
  else if bool_decide (key = 32%Z) then
    let '(self1, tr) := dispatch self (Some "STOP") in (true, self1, tr)
  else (true, self, []).

(** What one iteration of the loop of [run] reads: the classifier's
    sector status for the depth frame, the marker observation with its
    distance, the clock reading taken by the avoidance controller, and
    the key.  [frames = None] stands for [get_frames] returning no frame. *)
Record Percept := mkPercept {
  sector_status : gmap string string;
  aruco_result : Aruco.result;
  now : float
}.

Record Input := mkInput {
  frames : option Percept;
  key : Z
}.

(** The arbiter's final command in a cycle that got frames, and the
    controller after the avoidance step and the arbiter. *)
Definition decide_cycle (cfg : Config) (self : RobotController) (p : Percept)
  : option string * RobotController :=
  let path_clear := VFH.is_all_clear (sector_status p) in
  let '(vfh_command, v) := VFH.get_vfh_command (vfh self) (sector_status p) (now p) in
  let aruco_command := Aruco.get_tracking_command (aruco_result p) in
  decision_logic cfg (set_vfh self v) path_clear (sector_status p) vfh_command
                 (aruco_result p) aruco_command.

(** Lines 119-122 of [run]: forward the final command when it differs
    from [self.current_command]. *)
Definition forward (self : RobotController) (final_command : option string)
  : RobotController * list obs :=
  if bool_decide (final_command ≠ current_command self) then
    let '(self1, tr) := dispatch self final_command in
    (set_current_command self1 final_command, tr)
  else (self, []).

(** One iteration of the [while] loop of [run]: the flag tells whether
    the loop goes on ([handle_keyboard] returned [True], or the iteration
    was cut short by [continue]). *)
Definition cycle (cfg : Config) (self : RobotController) (i : Input)
  : bool * RobotController * list obs :=
  match frames i with
  | None => (true, self, [])
  | Some p =>
    let '(final_command, self1) := decide_cycle cfg self p in
    let '(self2, tr1) := forward self1 final_command in
    let '(continue, self3, tr2) := handle_keyboard self2 (key i) in
    (continue, self3, tr1 ++ tr2)
  end.

(** [cleanup] *)
Definition cleanup (self : RobotController) : RobotController * list obs :=
  let '(self1, tr1) := dispatch self (Some "STOP") in
  let '(a, evs) := Arduino.close (arduino self1) in
  (set_arduino self1 a, tr1 ++ CleanupVFH :: map Port evs).

(** The loop of [run] over the inputs of its successive iterations; it
    stops at the first iteration that [handle_keyboard] ends. *)
Fixpoint loop (cfg : Config) (self : RobotController) (inputs : list Input)
  : RobotController * list obs :=
  match inputs with
  | [] => (self, [])
  | i :: rest =>
    if running self then
      let '(continue, self1, tr1) := cycle cfg self i in
      if continue then
        let '(self2, tr2) := loop cfg self1 rest in (self2, tr1 ++ tr2)
      else (self1, tr1)
    else (self, [])
  end.

(** [run]: the loop, then [cleanup] in the [finally] clause. *)
Definition run (cfg : Config) (self : RobotController) (inputs : list Input)
  : RobotController * list obs :=
  let '(self1, tr1) := loop cfg self inputs in
  let '(self2, tr2) := cleanup self1 in
  (self2, tr1 ++ tr2).

(** The arbiter's final command in each iteration of [loop] that got frames. *)
Fixpoint finals (cfg : Config) (self : RobotController) (inputs : list Input)
  : list (option string) :=
  match inputs with
  | [] => []
  | i :: rest =>
    if running self then
      let here :=
        match frames i with
        | Some p => [(decide_cycle cfg self p).1]
        | None => []
        end in
      let '(continue, self1, _) := cycle cfg self i in
      if continue then here ++ finals cfg self1 rest else here
    else []
  end.

(** The entries of [l] that differ from their predecessor, [previous]
    being the predecessor of the first. *)
Fixpoint changes {A} `{EqDecision A} (previous : A) (l : list A) : list A :=
  match l with
  | [] => []
  | x :: l' => if decide (x = previous) then changes previous l' else x :: changes x l'
  end.

(** No two neighbours of [l] are equal. *)
Fixpoint adjacent_distinct {A} (l : list A) : Prop :=
  match l with
  | x :: l' =>
    match l' with
    | y :: _ => x ≠ y ∧ adjacent_distinct l'
    | [] => True
    end
  | [] => True
  end.

(** The marker is within the approach distance: its distance is known
    and compares below [ARUCO_APPROACH_DISTANCE]. *)
Definition within_approach (cfg : Config) (aruco_result : Aruco.result) : Prop :=
  ∃ d, Aruco.distance aruco_result = Some d ∧
       (d <? ARUCO_APPROACH_DISTANCE cfg)%float = true.

(** The settings of the specification's scenarios: approach distance
    0.5 m, and the avoidance controller's defaults. *)
Definition example_config : Config :=
  {| ARUCO_APPROACH_DISTANCE := 0.5;
     SEARCH_MODE_BEHAVIOR := "STOP";
     VFH_THRESHOLD_DISTANCE := 1;
     VFH_NUM_SECTORS := 5;
     VFH_TURN_DURATION := 0.2;
     VFH_FORWARD_DURATION := 0.4 |}.

(** A healthy serial port, and the controller started on it at t = 0. *)
Definition healthy_port : Arduino.Serial :=
  {| Arduino.is_open := true; Arduino.faults := [] |}.

Definition started : RobotController := init example_config (Some healthy_port) 0.

(** Observations: no marker; a marker in the given zone at the given distance. *)
Definition no_marker : Aruco.result :=
  {| Aruco.detected := false; Aruco.marker_id := None; Aruco.center_x := None;
     Aruco.center_y := None; Aruco.zone := None; Aruco.distance := None |}.

Definition marker (zone : string) (distance : option float) : Aruco.result :=
  {| Aruco.detected := true; Aruco.marker_id := Some 7%Z; Aruco.center_x := Some 100%Z;
     Aruco.center_y := Some 240%Z; Aruco.zone := Some zone; Aruco.distance := distance |}.

(** The sector status with every sector Clear. *)
Definition all_clear : gmap string string :=
  VFH.analyze_sectors (VFH.init_default 0) None.

(** Nothing in view: all sectors Clear and no marker. *)
Definition nothing_in_view : Percept :=
  {| sector_status := all_clear; aruco_result := no_marker; now := 0.1 |}.

(** An iteration in which nothing is in view and the operator hits the
    space bar. *)
Definition idle_emergency : Input := {| frames := Some nothing_in_view; key := 32 |}.

(** Iterations without key press (255 is what the masked [waitKey] gives
    then): nothing in view; a marker to the left at 0.7 m. *)
Definition idle : Input := {| frames := Some nothing_in_view; key := 255 |}.

Definition marker_left : Input :=
  {| frames := Some {| sector_status := all_clear;
                       aruco_result := marker "LEFT" (Some 0.7%float); now := 0.2 |};
     key := 255 |}.

(** A marker to the left at 0.7 m while the operator hits the space bar. *)
Definition marker_left_emergency : Input :=
  {| frames := frames marker_left; key := 32 |}.

(** The trace [tr], leading from [self] to [self'], shows on the port
    what sending its dispatched commands one after the other shows, and
    leaves the dispatcher where they leave it. *)
Definition in_step (self : RobotController) (tr : list obs) (self' : RobotController)
  : Prop :=
  port_events tr = (Arduino.send_all (dispatches tr) (arduino self)).2 ∧
  arduino self' = (Arduino.send_all (dispatches tr) (arduino self)).1.2.

(** The avoidance controller's command is FORWARD, LEFT or RIGHT. *)
Definition steering (self : RobotController) : Prop :=
  VFH.motion (VFH.current_command (vfh self)).

(** The sector status of an iteration, when it got frames, is keyed by
    the five sector names. *)
Definition keyed (i : Input) : Prop :=
  ∀ p, frames i = Some p → VFH.keyed_by_labels (sector_status p).

End Robot.

(** * Properties *)

(** ** The command dispatcher *)

Section Dispatcher.

Import Arduino.

Implicit Types (self : ArduinoComm) (s : Serial) (c : string).

Lemma is_valid_cases c :
  is_valid (Some c) = true ↔ c = "FORWARD" ∨ c = "LEFT" ∨ c = "RIGHT" ∨ c = "STOP".
Proof.
  unfold is_valid, valid_commands. rewrite bool_decide_eq_true.
  rewrite !elem_of_cons, elem_of_nil. tauto.
Qed.

(** An invalid command is rejected and nothing changes. *)
Lemma send_command_invalid command self :
  is_valid command = false → send_command command self = (false, self, []).
Proof.
  intros Hv. unfold send_command. destruct command as [c|]; [|done].
  by rewrite Hv.
Qed.

(** The three ways a valid, new command can go. *)
Lemma send_command_sent c self s :
  is_valid (Some c) = true → Some c ≠ last_command self →
  serial self = Some s → connected self = true → is_open s = true →
  (write s).1 = false →
  send_command (Some c) self
  = (true,
     {| serial := Some (write s).2; last_command := Some c; connected := true |},
     [Write (payload c) true]).
Proof.
  intros Hv Hne Hs Hc Ho Hw. unfold send_command.
  rewrite Hv, Hs, Hc, Ho. simpl. rewrite bool_decide_eq_false_2 by done.
  destruct (write s) as [raised s']. simpl in Hw. by subst raised.
Qed.

Lemma send_command_raised c self s :
  is_valid (Some c) = true → Some c ≠ last_command self →
  serial self = Some s → connected self = true → is_open s = true →
  (write s).1 = true →
  send_command (Some c) self
  = (false,
     {| serial := Some (write s).2; last_command := last_command self; connected := false |},
     [Write (payload c) false]).
Proof.
  intros Hv Hne Hs Hc Ho Hw. unfold send_command.
  rewrite Hv, Hs, Hc, Ho. simpl. rewrite bool_decide_eq_false_2 by done.
  destruct (write s) as [raised s']. simpl in Hw. by subst raised.
Qed.

Lemma send_command_simulated c self :
  is_valid (Some c) = true → Some c ≠ last_command self →
  link_up self = false →
  send_command (Some c) self
  = (true,
     {| serial := serial self; last_command := Some c; connected := connected self |},
     []).
Proof.
  intros Hv Hne Hl. unfold send_command, link_up in *.
  rewrite Hv. simpl. rewrite bool_decide_eq_false_2 by done.
  destruct (serial self) as [s|]; [|done]. by rewrite Hl.
Qed.

(** A command equal to the last one is a no-op that reports success. *)
Lemma send_command_same c self :
  is_valid (Some c) = true → last_command self = Some c →
  send_command (Some c) self = (true, self, []).
Proof.
  intros Hv Hl. unfold send_command. rewrite Hv. simpl.
  by rewrite bool_decide_eq_true_2.
Qed.

Lemma link_up_spec self :
  link_up self = true ↔
  connected self = true ∧ ∃ s, serial self = Some s ∧ is_open s = true.
Proof.
  unfold link_up. rewrite andb_true_iff. destruct (serial self) as [s|].
  - split; [intros [? ?]; eauto | intros [? (s' & [= <-] & ?)]; done].
  - split; [intros [_ [=]] | intros [_ (s' & [=] & _)]].
Qed.

(** C1, as stated, fails: after a write that raises, [connected] is false
    but [last_command] still holds the previous command, not the one
    that was attempted. *)
Lemma send_command_failure_forgets_command :
  is_valid (Some "STOP") = true ∧ Some "STOP" ≠ last_command failing ∧
  link_up failing = true ∧
  (send_command (Some "STOP") failing).2 = [Write (payload "STOP") false] ∧
  ¬ (connected (send_command (Some "STOP") failing).1.2 = false ∧
     last_command (send_command (Some "STOP") failing).1.2 = Some "STOP").
Proof.
  split; [done|]. split; [discriminate|]. split; [done|]. split; [done|].
  vm_compute. intros [_ [=]].
Qed.

(** C1 (amended): when the write of a valid, new command raises on a
    connected link, the call returns [False], [connected] becomes false
    and [last_command] keeps its previous value; the same command sent
    again is therefore not deduplicated: it takes the simulated branch,
    which records it as [last_command] and reports success without
    touching the port. *)
Theorem send_command_transport_failure c self s :
  is_valid (Some c) = true → Some c ≠ last_command self →
  connected self = true → serial self = Some s → is_open s = true →
  (write s).1 = true →
  ∃ self1,
    send_command (Some c) self = (false, self1, [Write (payload c) false]) ∧
    connected self1 = false ∧
    last_command self1 = last_command self ∧
    send_command (Some c) self1
    = (true, {| serial := serial self1; last_command := Some c; connected := false |}, []).
Proof.
  intros Hv Hne Hc Hs Ho Hw.
  eexists. split; [by apply send_command_raised|].
  split; [done|]. split; [done|].
  by rewrite send_command_simulated.
Qed.

Lemma send_command_transport_failure_witness :
  ∃ self1,
    send_command (Some "STOP") failing = (false, self1, [Write (payload "STOP") false]) ∧
    connected self1 = false ∧
    last_command self1 = Some "FORWARD" ∧
    send_command (Some "STOP") self1
    = (true, {| serial := serial self1; last_command := Some "STOP"; connected := false |}, []).
Proof.
  apply (send_command_transport_failure "STOP" failing {| is_open := true; faults := [true] |});
    reflexivity || (vm_compute; congruence).
Defined.

(** Sending the same valid, new command twice in a row: only the first
    call can reach the port, and it does so exactly when the link is up. *)
Lemma send_twice c self :
  is_valid (Some c) = true → last_command self ≠ Some c →
  ∃ r1 self1 evs1 r2 self2,
    send_command (Some c) self = (r1, self1, evs1) ∧
    send_command (Some c) self1 = (r2, self2, []) ∧
    attempts evs1 = (if link_up self then [payload c] else []) ∧
    transmissions evs1 = (if link_up self && r1 then [payload c] else []).
Proof.
  intros Hv Hne. assert (Some c ≠ last_command self) as Hne' by congruence.
  destruct (link_up self) eqn:Hup.
  - apply link_up_spec in Hup as (Hc & s & Hs & Ho).
    destruct (write s).1 eqn:Hw.
    + eexists _, _, _, _, _. split; [by apply send_command_raised|].
      split; [|done]. by apply send_command_simulated.
    + eexists _, _, _, _, _. split; [by apply send_command_sent|].
      split; [|done]. by apply send_command_same.
  - eexists _, _, _, _, _. split; [by apply send_command_simulated|].
    split; [|done]. by apply send_command_same.
Qed.

(** C7, as stated, fails in its second half: in simulation mode two STOP
    commands in a row, from a state whose last command is not STOP,
    produce no transmission at all. *)
Lemma send_stop_twice_simulated_no_transmission :
  last_command simulated ≠ Some "STOP" ∧
  (send_all [Some "STOP"; Some "STOP"] simulated).1.1 = [true; true] ∧
  transmissions (send_all [Some "STOP"; Some "STOP"] simulated).2 = [] ∧
  length (transmissions (send_all [Some "STOP"; Some "STOP"] simulated).2) ≠ 1.
Proof. split; [discriminate|]. split; [done|]. split; [done|]. vm_compute. discriminate. Qed.

(** C7 (amended): a valid command equal to [last_command] returns success,
    touches the port not at all and leaves the dispatcher unchanged; a
    valid command different from [last_command] (STOP in particular),
    sent twice in a row, makes exactly one write attempt when the link is
    up (connected, with an open port), which is a transmission unless that
    write raises, and makes none when the link is down; the second call
    never reaches the port. *)
Theorem send_command_deduplicates c self :
  is_valid (Some c) = true →
  (last_command self = Some c → send_command (Some c) self = (true, self, [])) ∧
  (last_command self ≠ Some c →
   attempts (send_all [Some c; Some c] self).2
   = (if link_up self then [payload c] else []) ∧
   transmissions (send_all [Some c; Some c] self).2
   = (if link_up self && (send_all [Some c; Some c] self).1.1 !!! 0%nat
      then [payload c] else []) ∧
   (send_all [Some c] (send_all [Some c] self).1.2).2 = []).
Proof.
  intros Hv. split; [by apply send_command_same|].
  intros Hne. destruct (send_twice c self Hv Hne)
    as (r1 & self1 & evs1 & r2 & self2 & H1 & H2 & Ha & Ht).
  cbn [send_all]. rewrite H1. cbn [send_all fst snd]. rewrite H2.
  cbn [fst snd lookup_total list_lookup_total]. rewrite app_nil_r. done.
Qed.

Lemma send_command_deduplicates_witness :
  send_command (Some "STOP") stopped = (true, stopped, []) ∧
  attempts (send_all [Some "STOP"; Some "STOP"] moving).2 = [payload "STOP"] ∧
  transmissions (send_all [Some "STOP"; Some "STOP"] moving).2 = [payload "STOP"] ∧
  (send_all [Some "STOP"] (send_all [Some "STOP"] moving).1.2).2 = [].
Proof.
  destruct (send_command_deduplicates "STOP" stopped eq_refl) as [Hsame _].
  destruct (send_command_deduplicates "STOP" moving eq_refl) as [_ Htwice].
  split; [apply Hsame; reflexivity|].
  apply Htwice. discriminate.
Defined.

(** [close] always leaves the dispatcher reset, and without an open port
    it leaves the port alone. *)
Lemma close_resets self :
  (close self).1 = {| serial := None; last_command := None; connected := false |}.
Proof. done. Qed.

Lemma close_without_open_port self :
  (∀ s, serial self = Some s → is_open s = false) → (close self).2 = [].
Proof.
  intros H. unfold close. destruct (serial self) as [s|]; [|done].
  by rewrite (H s eq_refl).
Qed.

(** C3, as stated, fails: the STOP of [close] is not unconditional.  In
    simulation mode (no port) nothing is written. *)
Lemma close_simulated_sends_nothing :
  (close simulated).2 = [] ∧ attempts (close simulated).2 ≠ [payload "STOP"].
Proof. split; [done|]. vm_compute. discriminate. Qed.

(** C3 (amended): when the port object exists and is open, [close] writes
    STOP exactly once, whatever [last_command] and [connected] are (so
    also right after a STOP), closes the port when that write did not
    raise, and leaves the dispatcher without port, disconnected and with
    no last command. *)
Theorem close_sends_stop_then_releases self s :
  serial self = Some s → is_open s = true →
  attempts (close self).2 = [payload "STOP"] ∧
  (close self).2
  = (if (write s).1 then [Write (payload "STOP") false]
     else [Write (payload "STOP") true; ClosePort]) ∧
  (close self).1 = {| serial := None; last_command := None; connected := false |}.
Proof.
  intros Hs Ho. unfold close. rewrite Hs, Ho.
  destruct (write s) as [[] s']; done.
Qed.

Lemma close_sends_stop_then_releases_witness :
  attempts (close stopped).2 = [payload "STOP"] ∧
  (close stopped).2 = [Write (payload "STOP") true; ClosePort] ∧
  (close stopped).1 = {| serial := None; last_command := None; connected := false |}.
Proof.
  apply (close_sends_stop_then_releases stopped {| is_open := true; faults := [] |});
    reflexivity.
Defined.

End Dispatcher.

(** ** The avoidance controller *)

Section Avoidance.

Import VFH.

Implicit Types (self : KinectVFH) (ss : gmap string string) (now : float).

Lemma obstacle_detected_spec ss :
  obstacle_detected ss = true ↔ ∃ label, Obstructed ss label.
Proof.
  unfold obstacle_detected, Obstructed. rewrite bool_decide_eq_true.
  unfold map_Exists. split.
  - intros (k & x & Hk & ->). eauto.
  - intros (k & Hk). eauto.
Qed.

Lemma get_high ss label : get ss label = "High" ↔ Obstructed ss label.
Proof.
  unfold get, Obstructed. destruct (ss !! label) as [x|]; simpl.
  - split; congruence.
  - split; discriminate.
Qed.

Lemma bool_decide_get_high ss label :
  bool_decide (get ss label = "High") = bool_decide (Obstructed ss label).
Proof. apply bool_decide_ext, get_high. Qed.

(** What the chain of tests computes, in the words of the sector names. *)
Lemma choose_turn_spec ss previous :
  choose_turn ss previous
  = if decide (Obstructed ss "Kiri" ∨ Obstructed ss "Kiri-Depan") then Some "RIGHT"
    else if decide (Obstructed ss "Kanan" ∨ Obstructed ss "Kanan-Depan") then Some "LEFT"
    else if decide (Obstructed ss "Tengah") then
      if decide (Clear ss "Kiri-Depan") then Some "LEFT" else Some "RIGHT"
    else previous.
Proof.
  unfold choose_turn, Clear. rewrite !bool_decide_get_high.
  repeat case_decide; repeat case_bool_decide; simpl; try done; tauto.
Qed.

(** Every path through the obstacle branch stores the chosen turn. *)
Lemma get_vfh_command_turn_direction self ss now :
  obstacle_detected ss = true →
  turn_direction (get_vfh_command self ss now).2
  = choose_turn ss (turn_direction self).
Proof.
  intros Hobs. unfold get_vfh_command. rewrite Hobs. simpl.
  repeat case_bool_decide; repeat case_match; done.
Qed.

(** The command returned is the controller's new [current_command]. *)
Lemma get_vfh_command_returns_current self ss now :
  (get_vfh_command self ss now).1 = current_command (get_vfh_command self ss now).2.
Proof.
  unfold get_vfh_command.
  repeat case_bool_decide; repeat case_match; simpl; try done.
  all: match goal with H : ¬ _ ≠ _ |- _ => by apply dec_stable in H end.
Qed.

(** C6: with an obstacle in view, the pending turn direction stored by
    [get_vfh_command] follows the first matching rule: RIGHT when the
    leftmost or the left-front sector is Obstructed; otherwise LEFT when
    the rightmost or the right-front sector is Obstructed; otherwise, when
    the centre sector is Obstructed, LEFT if the left-front sector is
    Clear and RIGHT if it is not. *)
Theorem pending_turn_precedence self ss now :
  obstacle_detected ss = true →
  (Obstructed ss "Kiri" ∨ Obstructed ss "Kiri-Depan" →
   turn_direction (get_vfh_command self ss now).2 = Some "RIGHT") ∧
  (¬ (Obstructed ss "Kiri" ∨ Obstructed ss "Kiri-Depan") →
   Obstructed ss "Kanan" ∨ Obstructed ss "Kanan-Depan" →
   turn_direction (get_vfh_command self ss now).2 = Some "LEFT") ∧
  (¬ (Obstructed ss "Kiri" ∨ Obstructed ss "Kiri-Depan") →
   ¬ (Obstructed ss "Kanan" ∨ Obstructed ss "Kanan-Depan") →
   Obstructed ss "Tengah" →
   (Clear ss "Kiri-Depan" →
    turn_direction (get_vfh_command self ss now).2 = Some "LEFT") ∧
   (¬ Clear ss "Kiri-Depan" →
    turn_direction (get_vfh_command self ss now).2 = Some "RIGHT")).
Proof.
  intros Hobs. rewrite get_vfh_command_turn_direction, choose_turn_spec by done.
  repeat split; intros; repeat case_decide; done.
Qed.

Lemma pending_turn_precedence_witness :
  turn_direction (get_vfh_command (init_default 0) left_front_blocked 0.5).2
  = Some "RIGHT".
Proof.
  destruct (pending_turn_precedence (init_default 0) left_front_blocked 0.5 eq_refl)
    as [Hleft _].
  apply Hleft. right. reflexivity.
Defined.

(** C4: with an obstacle in view, a controller that is going FORWARD and
    has done so for at least [forward_duration] switches to the pending
    turn direction and restarts its timer at [now]; one that is turning
    LEFT or RIGHT and has done so for at least [turn_duration] switches
    to FORWARD and restarts its timer; in every other case command and
    timer stay as they are; and the call returns the resulting command. *)
Theorem get_vfh_command_transition self ss now :
  obstacle_detected ss = true →
  (get_vfh_command self ss now).1 = current_command (get_vfh_command self ss now).2 ∧
  (current_command self = Some "FORWARD" →
   (forward_duration self <=? now - command_start_time self)%float = true →
   current_command (get_vfh_command self ss now).2
   = turn_direction (get_vfh_command self ss now).2 ∧
   command_start_time (get_vfh_command self ss now).2 = now) ∧
  (current_command self = Some "LEFT" ∨ current_command self = Some "RIGHT" →
   (turn_duration self <=? now - command_start_time self)%float = true →
   current_command (get_vfh_command self ss now).2 = Some "FORWARD" ∧
   command_start_time (get_vfh_command self ss now).2 = now) ∧
  (¬ (current_command self = Some "FORWARD" ∧
      (forward_duration self <=? now - command_start_time self)%float = true) →
   ¬ ((current_command self = Some "LEFT" ∨ current_command self = Some "RIGHT") ∧
      (turn_duration self <=? now - command_start_time self)%float = true) →
   current_command (get_vfh_command self ss now).2 = current_command self ∧
   command_start_time (get_vfh_command self ss now).2 = command_start_time self).
Proof.
  intros Hobs. split; [apply get_vfh_command_returns_current|].
  unfold get_vfh_command. rewrite Hobs. simpl.
  split; [|split].
  - intros Hc Hd. rewrite (bool_decide_eq_true_2 _ Hc), Hd. done.
  - intros Hc Hd.
    assert (current_command self ≠ Some "FORWARD") as Hnf
      by (destruct Hc; congruence).
    assert (current_command self ∈ [Some "LEFT"; Some "RIGHT"]) as Hin
      by (destruct Hc as [-> | ->]; set_solver).
    rewrite (bool_decide_eq_false_2 _ Hnf), (bool_decide_eq_true_2 _ Hin), Hd.
    done.
  - intros Hf Ht. case_bool_decide as Hc.
    + destruct (forward_duration self <=? _)%float eqn:Hd;
        [exfalso; by apply Hf | by simpl].
    + case_bool_decide as Hc'; [|by simpl].
      destruct (turn_duration self <=? _)%float eqn:Hd; [|by simpl].
      exfalso. apply Ht. split; [|done].
      rewrite !elem_of_cons, elem_of_nil in Hc'. tauto.
Qed.

(** The scenario of C4: only the left-front sector Obstructed, a forward
    duration of 0.4 s, the controller just reset to FORWARD at t = 0.  The
    call at t = 0 returns FORWARD, the call at t = 0.5 s returns RIGHT. *)
Lemma get_vfh_command_transition_witness :
  (get_vfh_command (init_default 0) left_front_blocked 0).1 = Some "FORWARD" ∧
  (get_vfh_command (get_vfh_command (init_default 0) left_front_blocked 0).2
                   left_front_blocked 0.5).1 = Some "RIGHT".
Proof.
  destruct (get_vfh_command_transition (init_default 0) left_front_blocked 0 eq_refl)
    as (Hr0 & _ & _ & Hkeep).
  destruct Hkeep as [Hc0 Ht0].
  { intros [_ Hd]. vm_compute in Hd. discriminate. }
  { intros [[Hc | Hc] _]; vm_compute in Hc; discriminate. }
  split; [rewrite Hr0, Hc0; reflexivity|].
  destruct (get_vfh_command_transition
              (get_vfh_command (init_default 0) left_front_blocked 0).2
              left_front_blocked 0.5 eq_refl) as (Hr1 & Hswitch & _ & _).
  destruct Hswitch as [Hc1 _].
  { rewrite Hc0. reflexivity. }
  { rewrite Ht0. reflexivity. }
  rewrite Hr1, Hc1. reflexivity.
Defined.

(** With an obstacle under one of the five names, the chain of tests
    always picks a side. *)
Lemma choose_turn_picks_side ss previous :
  keyed_by_labels ss → obstacle_detected ss = true →
  choose_turn ss previous = Some "LEFT" ∨ choose_turn ss previous = Some "RIGHT".
Proof.
  intros Hkeys Hobs. apply obstacle_detected_spec in Hobs as [label Hlabel].
  assert (label ∈ labels) as Hin by (eapply (Hkeys label); exact Hlabel).
  rewrite choose_turn_spec.
  repeat case_decide; auto.
  exfalso. unfold labels in Hin. rewrite !elem_of_cons, elem_of_nil in Hin.
  destruct Hin as [-> | [-> | [-> | [-> | [-> | []]]]]]; tauto.
Qed.

(** One call keeps the command among FORWARD, LEFT and RIGHT. *)
Lemma get_vfh_command_motion self ss now :
  keyed_by_labels ss → motion (current_command self) →
  motion (current_command (get_vfh_command self ss now).2).
Proof.
  intros Hkeys Hm. unfold get_vfh_command.
  destruct (obstacle_detected ss) eqn:Hobs; simpl.
  - pose proof (choose_turn_picks_side ss (turn_direction self) Hkeys Hobs) as Hside.
    unfold motion in *.
    repeat case_bool_decide; repeat case_match; simpl; tauto.
  - unfold motion in *. case_bool_decide; simpl; tauto.
Qed.

Lemma get_vfh_commands_motion inputs : ∀ self,
  Forall (λ i, keyed_by_labels i.1) inputs → motion (current_command self) →
  motion (current_command (get_vfh_commands self inputs).2) ∧
  Forall motion (get_vfh_commands self inputs).1.
Proof.
  induction inputs as [|[ss now] rest IH]; intros self Hkeys Hm; simpl.
  - by split.
  - apply Forall_cons in Hkeys as [Hk Hrest]. simpl in Hk.
    pose proof (get_vfh_command_motion self ss now Hk Hm) as Hm1.
    pose proof (get_vfh_command_returns_current self ss now) as Hret.
    destruct (get_vfh_command self ss now) as [command self1]. simpl in *.
    specialize (IH self1 Hrest Hm1).
    destruct (get_vfh_commands self1 rest) as [commands self2]. simpl in *.
    destruct IH as [IH1 IH2]. split; [done|].
    apply Forall_cons. split; [by subst command | done].
Qed.

Lemma motion_not_stop command :
  motion command → command ≠ Some "STOP" ∧ command ≠ None.
Proof. intros [-> | [-> | ->]]; by split. Qed.

(** C9: the avoidance controller starts with [current_command] FORWARD,
    and after any number of calls of [get_vfh_command] on sector statuses
    keyed by the five sector names, [current_command] is FORWARD, LEFT or
    RIGHT; so is every command the calls returned, none of which is STOP
    or [None]. *)
Theorem current_command_invariant threshold n turn fwd t0 inputs :
  Forall (λ i, keyed_by_labels i.1) inputs →
  current_command (init threshold n turn fwd t0) = Some "FORWARD" ∧
  motion (current_command (get_vfh_commands (init threshold n turn fwd t0) inputs).2) ∧
  Forall motion (get_vfh_commands (init threshold n turn fwd t0) inputs).1 ∧
  Forall (λ command, command ≠ Some "STOP" ∧ command ≠ None)
         (get_vfh_commands (init threshold n turn fwd t0) inputs).1.
Proof.
  intros Hkeys. split; [done|].
  destruct (get_vfh_commands_motion inputs (init threshold n turn fwd t0) Hkeys)
    as [Hfinal Hall]; [by left|].
  split; [done|]. split; [done|].
  eapply Forall_impl; [exact Hall|]. apply motion_not_stop.
Qed.

Lemma left_front_blocked_keyed : keyed_by_labels left_front_blocked.
Proof.
  apply map_Forall_lookup. intros label status Hlookup.
  unfold left_front_blocked, analyze_sectors, init_default, init in Hlookup.
  simpl in Hlookup. unfold labels.
  repeat (apply lookup_insert_Some in Hlookup as [[<- _] | [_ Hlookup]]; [set_solver|]).
  by rewrite lookup_empty in Hlookup.
Qed.

Lemma current_command_invariant_witness :
  current_command (init_default 0) = Some "FORWARD" ∧
  motion (current_command
            (get_vfh_commands (init_default 0)
               [(left_front_blocked, 0%float); (left_front_blocked, 0.5%float);
                (left_front_blocked, 0.75%float)]).2) ∧
  Forall motion
    (get_vfh_commands (init_default 0)
       [(left_front_blocked, 0%float); (left_front_blocked, 0.5%float);
        (left_front_blocked, 0.75%float)]).1 ∧
  Forall (λ command, command ≠ Some "STOP" ∧ command ≠ None)
    (get_vfh_commands (init_default 0)
       [(left_front_blocked, 0%float); (left_front_blocked, 0.5%float);
        (left_front_blocked, 0.75%float)]).1.
Proof.
  apply (current_command_invariant 1 5 0.2 0.4 0).
  repeat (apply Forall_cons; split; [exact left_front_blocked_keyed|]).
  apply Forall_nil_2.
Defined.

End Avoidance.

(** ** The decision arbiter *)

Section Arbiter.

Import Robot.

Implicit Types (cfg : Config) (self : RobotController) (ss : gmap string string).

(** C2: in hybrid mode (no operator override), when the sectors are not
    all clear the arbiter returns the avoidance command and sets the mode
    to VFH_ACTIVE, whatever the marker observation is. *)
Theorem decision_logic_obstacle_first cfg self ss vfh_cmd aruco_result aruco_cmd :
  force_mode self = None →
  (decision_logic cfg self false ss vfh_cmd aruco_result aruco_cmd).1 = vfh_cmd ∧
  mode (decision_logic cfg self false ss vfh_cmd aruco_result aruco_cmd).2 = "VFH_ACTIVE" ∧
  decision_logic cfg self false ss vfh_cmd aruco_result aruco_cmd
  = (vfh_cmd, set_mode self "VFH_ACTIVE").
Proof.
  intros Hf. unfold decision_logic. rewrite Hf.
  rewrite !bool_decide_eq_false_2 by discriminate. done.
Qed.

(** A marker one centimetre away, seen by a controller fresh from
    [__init__] (mode INIT): the avoidance command is returned and the mode
    becomes VFH_ACTIVE. *)
Lemma decision_logic_obstacle_first_witness :
  mode started = "INIT" ∧
  (decision_logic example_config started false VFH.left_front_blocked (Some "RIGHT")
                  (marker "CENTER" (Some 0.01%float)) (Some "FORWARD")).1
  = Some "RIGHT" ∧
  mode (decision_logic example_config started false VFH.left_front_blocked (Some "RIGHT")
                       (marker "CENTER" (Some 0.01%float)) (Some "FORWARD")).2
  = "VFH_ACTIVE".
Proof.
  split; [reflexivity|].
  destruct (decision_logic_obstacle_first example_config started VFH.left_front_blocked
              (Some "RIGHT") (marker "CENTER" (Some 0.01%float)) (Some "FORWARD") eq_refl)
    as (Hcmd & Hmode & _).
  by split.
Defined.

(** C8: in hybrid mode with all sectors clear and a marker detected, the
    arbiter returns STOP with mode ARUCO_REACHED exactly when the marker's
    distance is known and below the approach distance; when the distance
    is unknown or not below it, the arbiter returns the tracking command
    with mode ARUCO_TRACKING. *)
Theorem decision_logic_marker cfg self ss vfh_cmd aruco_result aruco_cmd :
  force_mode self = None → Aruco.detected aruco_result = true →
  (decision_logic cfg self true ss vfh_cmd aruco_result aruco_cmd
   = (Some "STOP", set_mode self "ARUCO_REACHED")
   ↔ within_approach cfg aruco_result) ∧
  (¬ within_approach cfg aruco_result →
   decision_logic cfg self true ss vfh_cmd aruco_result aruco_cmd
   = (aruco_cmd, set_mode self "ARUCO_TRACKING")).
Proof.
  intros Hf Hdet. unfold decision_logic, within_approach. rewrite Hf, Hdet.
  rewrite !bool_decide_eq_false_2 by discriminate. simpl.
  destruct (Aruco.distance aruco_result) as [d|].
  - destruct (d <? ARUCO_APPROACH_DISTANCE cfg)%float eqn:Hd.
    + split; [split; eauto|]. intros []. eauto.
    + split; [|done]. split.
      * intros Heq. discriminate Heq.
      * intros (d' & [= <-] & Hd'). congruence.
  - split; [|done]. split.
    + intros Heq. discriminate Heq.
    + intros (d' & [=] & _).
Qed.

(** The scenario of C8: marker in the LEFT zone at 0.3 m, approach distance
    0.5 m, all sectors clear. *)
Lemma decision_logic_marker_witness :
  decision_logic example_config started true all_clear (Some "FORWARD")
                 (marker "LEFT" (Some 0.3%float)) (Some "RIGHT")
  = (Some "STOP", set_mode started "ARUCO_REACHED").
Proof.
  apply (decision_logic_marker example_config started all_clear (Some "FORWARD")
           (marker "LEFT" (Some 0.3%float)) (Some "RIGHT") eq_refl eq_refl).
  exists 0.3%float. split; reflexivity.
Defined.

End Arbiter.

(** ** The control loop *)

Section ControlLoop.

Import Robot.

Implicit Types (cfg : Config) (self : RobotController) (i : Input) (p : Percept).

Lemma dispatches_app tr1 tr2 : dispatches (tr1 ++ tr2) = dispatches tr1 ++ dispatches tr2.
Proof. apply omap_app. Qed.

Lemma dispatches_ports evs : dispatches (map Port evs) = [].
Proof. induction evs; done. Qed.

(** A call through [dispatch] is one call of [send_command]; it leaves
    the loop's own [current_command] alone. *)
Lemma dispatch_spec self command :
  dispatches (dispatch self command).2 = [command] ∧
  current_command (dispatch self command).1 = current_command self ∧
  running (dispatch self command).1 = running self.
Proof.
  unfold dispatch. destruct (Arduino.send_command command (arduino self)) as [[r a] evs].
  simpl. by rewrite dispatches_ports.
Qed.

(** The avoidance step and the arbiter do not touch [current_command]. *)
Lemma decide_cycle_current cfg self p :
  current_command (decide_cycle cfg self p).2 = current_command self ∧
  running (decide_cycle cfg self p).2 = running self.
Proof.
  unfold decide_cycle.
  destruct (VFH.get_vfh_command (vfh self) (sector_status p) (now p)) as [c v].
  unfold decision_logic.
  repeat case_bool_decide; repeat case_match; done.
Qed.

(** Lines 119-122: one call when the final command is new, none otherwise;
    either way the final command becomes [current_command]. *)
Lemma forward_spec self final :
  (forward self final).2 = (if decide (final = current_command self) then []
                            else (dispatch self final).2) ∧
  current_command (forward self final).1 = final ∧
  running (forward self final).1 = running self.
Proof.
  unfold forward. pose proof (dispatch_spec self final) as (_ & _ & Hr).
  destruct (dispatch self final) as [self1 tr].
  case_bool_decide as Hne; case_decide as Heq; simpl in *; done.
Qed.

(** Every key but the space bar leaves the dispatcher alone. *)
Lemma handle_keyboard_spec self k :
  dispatches (handle_keyboard self k).2 = (if decide (k = 32%Z) then [Some "STOP"] else []) ∧
  (k ≠ 32%Z → (handle_keyboard self k).2 = []) ∧
  current_command (handle_keyboard self k).1.2 = current_command self ∧
  running (handle_keyboard self k).1.2 = running self.
Proof.
  unfold handle_keyboard. pose proof (dispatch_spec self (Some "STOP")) as (Hd & Hc & Hr).
  destruct (dispatch self (Some "STOP")) as [self1 tr].
  repeat case_bool_decide; case_decide; simpl in *; subst; done.
Qed.

(** In an iteration the avoidance controller changes through its own
    [get_vfh_command] only: the arbiter, the dispatch and the keyboard
    handler leave it alone. *)
Lemma decision_logic_vfh cfg self path_clear ss vfh_cmd aruco_result aruco_cmd :
  vfh (decision_logic cfg self path_clear ss vfh_cmd aruco_result aruco_cmd).2 = vfh self.
Proof. unfold decision_logic. repeat case_bool_decide; repeat case_match; done. Qed.

Lemma dispatch_vfh self command : vfh (dispatch self command).1 = vfh self.
Proof.
  unfold dispatch. by destruct (Arduino.send_command command (arduino self)) as [[r a] evs].
Qed.

Lemma forward_vfh self final : vfh (forward self final).1 = vfh self.
Proof.
  unfold forward. pose proof (dispatch_vfh self final) as Hd.
  destruct (dispatch self final) as [self1 tr]. by case_bool_decide.
Qed.

Lemma handle_keyboard_vfh self k : vfh (handle_keyboard self k).1.2 = vfh self.
Proof.
  unfold handle_keyboard. pose proof (dispatch_vfh self (Some "STOP")) as Hd.
  destruct (dispatch self (Some "STOP")) as [self1 tr].
  repeat case_bool_decide; done.
Qed.

Lemma cycle_vfh cfg self i :
  vfh (cycle cfg self i).1.2
  = match frames i with
    | Some p => (VFH.get_vfh_command (vfh self) (sector_status p) (now p)).2
    | None => vfh self
    end.
Proof.
  unfold cycle. destruct (frames i) as [p|]; [|done].
  unfold decide_cycle.
  destruct (VFH.get_vfh_command (vfh self) (sector_status p) (now p)) as [c v].
  pose proof (decision_logic_vfh cfg (set_vfh self v) (VFH.is_all_clear (sector_status p))
                (sector_status p) c (aruco_result p)
                (Aruco.get_tracking_command (aruco_result p))) as Hd.
  destruct (decision_logic _ _ _ _ _ _ _) as [final self1].
  pose proof (forward_vfh self1 final) as Hf.
  destruct (forward self1 final) as [self2 tr1].
  pose proof (handle_keyboard_vfh self2 (key i)) as Hk.
  destruct (handle_keyboard self2 (key i)) as [[continue self3] tr2].
  simpl in *. congruence.
Qed.

Lemma cycle_no_frames cfg self i :
  frames i = None → cycle cfg self i = (true, self, []).
Proof. intros Hf. unfold cycle. by rewrite Hf. Qed.

(** One iteration that got frames: the arbiter's command is dispatched
    when it is new, and the space bar adds a STOP of its own. *)
Lemma cycle_spec cfg self i p :
  frames i = Some p →
  dispatches (cycle cfg self i).2
  = (if decide ((decide_cycle cfg self p).1 = current_command self) then []
     else [(decide_cycle cfg self p).1])
    ++ (if decide (key i = 32%Z) then [Some "STOP"] else []) ∧
  ((decide_cycle cfg self p).1 = current_command self → key i ≠ 32%Z →
   (cycle cfg self i).2 = []) ∧
  current_command (cycle cfg self i).1.2 = (decide_cycle cfg self p).1 ∧
  running (cycle cfg self i).1.2 = running self.
Proof.
  intros Hf. unfold cycle. rewrite Hf.
  pose proof (decide_cycle_current cfg self p) as [Hc Hr].
  destruct (decide_cycle cfg self p) as [final self1]. simpl in *.
  pose proof (forward_spec self1 final) as (Hft & Hfc & Hfr).
  pose proof (dispatch_spec self1 final) as (Hd & _ & _).
  destruct (forward self1 final) as [self2 tr1]. simpl in *.
  pose proof (handle_keyboard_spec self2 (key i)) as (Hkd & Hkq & Hkc & Hkr).
  destruct (handle_keyboard self2 (key i)) as [[continue self3] tr2]. simpl in *.
  rewrite dispatches_app, Hkd, Hft, Hc.
  split; [destruct (decide (final = current_command self)); [reflexivity | by rewrite Hd]|].
  split; [|split; congruence].
  intros Heq Hk. rewrite decide_True by done. by rewrite Hkq.
Qed.

Lemma changes_adjacent {A} `{EqDecision A} (l : list A) : ∀ previous,
  adjacent_distinct (previous :: changes previous l).
Proof.
  induction l as [|x l IH]; intros previous; [done|].
  cbn [changes]. case_decide as Heq; [apply IH|].
  split; [congruence | apply IH].
Qed.

Lemma changes_constant {A} `{EqDecision A} (l : list A) previous :
  Forall (λ x, x = previous) l → changes previous l = [].
Proof.
  induction 1 as [|x l -> _ IH]; [done|].
  cbn [changes]. by rewrite decide_True.
Qed.

(** Without the space bar, the loop hands the dispatcher exactly the
    changes of the arbiter's command. *)
Lemma loop_spec cfg inputs : ∀ self,
  Forall (λ i, key i ≠ 32%Z) inputs →
  dispatches (loop cfg self inputs).2
  = changes (current_command self) (finals cfg self inputs) ∧
  (Forall (λ c, c = current_command self) (finals cfg self inputs) →
   (loop cfg self inputs).2 = []).
Proof.
  induction inputs as [|i rest IH]; intros self Hkeys; [done|].
  apply Forall_cons in Hkeys as [Hk Hrest].
  cbn [loop finals]. destruct (running self) eqn:Hrun; [|done].
  destruct (frames i) as [p|] eqn:Hf.
  - pose proof (cycle_spec cfg self i p Hf) as (Hd & Hquiet & Hc & _).
    rewrite (decide_False (P := key i = 32%Z)) in Hd by done.
    rewrite app_nil_r in Hd.
    destruct (cycle cfg self i) as [[continue self1] tr1]. simpl in *.
    specialize (IH self1 Hrest) as [IHd IHq]. rewrite Hc in IHd, IHq.
    destruct (loop cfg self1 rest) as [self2 tr2]. simpl in *.
    destruct continue; simpl.
    + rewrite dispatches_app, Hd, IHd. split.
      * case_decide as Heq; [by rewrite Heq | done].
      * intros Hall. apply Forall_cons in Hall as [Heq Hall].
        rewrite Hquiet by done. apply IHq. by rewrite Heq.
    + rewrite Hd. split; [by case_decide|].
      intros Hall. apply Forall_cons in Hall as [Heq _]. by apply Hquiet.
  - rewrite (cycle_no_frames cfg self i Hf). simpl.
    specialize (IH self Hrest) as [IHd IHq].
    destruct (loop cfg self rest) as [self2 tr2]. done.
Qed.

(** C10, as stated, fails: the loop also calls [send_command] from its
    keyboard handler.  Started afresh with nothing in view, the arbiter's
    command is STOP, equal to [current_command]; yet with the space bar
    down the dispatcher is called with STOP and writes it to the port, and
    it is called with STOP again in the next such iteration. *)
Lemma emergency_stop_bypasses_loop :
  (decide_cycle example_config started nothing_in_view).1 = current_command started ∧
  dispatches (cycle example_config started idle_emergency).2 = [Some "STOP"] ∧
  port_events (cycle example_config started idle_emergency).2
  = [Arduino.Write (Arduino.payload "STOP") true] ∧
  dispatches (loop example_config started [idle_emergency; idle_emergency]).2
  = [Some "STOP"; Some "STOP"].
Proof. repeat split; vm_compute; reflexivity. Qed.

(** C10 (amended): the loop's own [current_command] starts as STOP; in an
    iteration without the emergency-stop key the dispatcher is called
    exactly when the arbiter's final command differs from
    [current_command], and with that command; hence, over iterations
    without that key, the dispatcher receives the successive changes of
    the arbiter's command, never the same command twice in a row, never a
    command equal to the initial STOP first, and nothing at all (no call,
    no byte on the link) while the arbiter keeps deciding STOP.  (The
    space bar sends a STOP of its own in any iteration.) *)
Theorem control_loop_forwards_changes cfg port t0 inputs :
  Forall (λ i, key i ≠ 32%Z) inputs →
  current_command (init cfg port t0) = Some "STOP" ∧
  (∀ self i p, frames i = Some p → key i ≠ 32%Z →
     dispatches (cycle cfg self i).2
     = if decide ((decide_cycle cfg self p).1 = current_command self) then []
       else [(decide_cycle cfg self p).1]) ∧
  dispatches (loop cfg (init cfg port t0) inputs).2
  = changes (Some "STOP") (finals cfg (init cfg port t0) inputs) ∧
  adjacent_distinct (Some "STOP" :: dispatches (loop cfg (init cfg port t0) inputs).2) ∧
  (Forall (λ c, c = Some "STOP") (finals cfg (init cfg port t0) inputs) →
   (loop cfg (init cfg port t0) inputs).2 = []).
Proof.
  intros Hkeys. split; [done|]. split.
  { intros self i p Hf Hk. destruct (cycle_spec cfg self i p Hf) as (Hd & _).
    rewrite Hd, (decide_False (P := key i = 32%Z)) by done. apply app_nil_r. }
  destruct (loop_spec cfg inputs (init cfg port t0) Hkeys) as [Hd Hq].
  split; [exact Hd|]. split; [|exact Hq].
  rewrite Hd. apply changes_adjacent.
Qed.

Lemma control_loop_forwards_changes_witness :
  finals example_config started [idle; marker_left; marker_left; idle]
  = [Some "STOP"; Some "RIGHT"; Some "RIGHT"; Some "STOP"] ∧
  dispatches (loop example_config started [idle; marker_left; marker_left; idle]).2
  = [Some "RIGHT"; Some "STOP"] ∧
  (loop example_config started [idle; idle]).2 = [].
Proof.
  split; [reflexivity|]. split.
  - destruct (control_loop_forwards_changes example_config (Some healthy_port) 0
                [idle; marker_left; marker_left; idle]) as (_ & _ & Hd & _).
    { repeat (apply Forall_cons; split; [discriminate|]). apply Forall_nil_2. }
    etransitivity; [exact Hd|]. reflexivity.
  - destruct (control_loop_forwards_changes example_config (Some healthy_port) 0
                [idle; idle]) as (_ & _ & _ & _ & Hq).
    { repeat (apply Forall_cons; split; [discriminate|]). apply Forall_nil_2. }
    apply Hq. repeat (apply Forall_cons; split; [reflexivity|]). apply Forall_nil_2.
Defined.

End ControlLoop.

(** ** The sector classifier *)

Section Classifier.

Import VFH.

Implicit Types (self : KinectVFH) (depth : list (list R)).

(** *** The array operations *)

Lemma select_map {A B} (f : A → bool) (g : A → B) (l : list A) :
  Np.select (map f l) (map g l) = map g (List.filter f l).
Proof.
  induction l as [|x l IH]; [done|]. simpl. destruct (f x); simpl; by rewrite IH.
Qed.

Lemma zip_with_map {A B C D} (f : B → C → D) (g : A → B) (h : A → C) (l : list A) :
  zip_with f (map g l) (map h l) = map (λ x, f (g x) (h x)) l.
Proof. induction l as [|x l IH]; [done|]. simpl. by rewrite IH. Qed.

Lemma any_existsb {A} (f : A → bool) (l : list A) :
  Np.any (map f l) = existsb f l.
Proof. unfold Np.any. induction l as [|x l IH]; [done|]. simpl. by rewrite IH. Qed.

Lemma foldl_Rmin (a : list R) : ∀ v,
  (foldl Rmin v a = v ∨ In (foldl Rmin v a) a) ∧
  (foldl Rmin v a <= v)%R ∧
  ∀ x, In x a → (foldl Rmin v a <= x)%R.
Proof.
  induction a as [|y a IH]; intros v; simpl.
  - split; [by left|]. split; [lra | tauto].
  - destruct (IH (Rmin v y)) as (Hin & Hle & Hall).
    pose proof (Rmin_l v y). pose proof (Rmin_r v y).
    split; [|split].
    + destruct Hin as [Heq | Hin]; [|by right; right].
      rewrite Heq. unfold Rmin. destruct (Rle_dec v y); [by left | by right; left].
    + lra.
    + intros x [<- | Hx]; [lra | by apply Hall].
Qed.

(** [np.min] of a non-empty array is its least entry. *)
Lemma min_spec (a : list R) :
  a ≠ [] → In (Np.min a) a ∧ ∀ x, In x a → (Np.min a <= x)%R.
Proof.
  destruct a as [|v a]; [done|]. intros _. unfold Np.min.
  destruct (foldl_Rmin a v) as (Hin & Hle & Hall). split.
  - destruct Hin as [-> | Hin]; [by left | by right].
  - intros x [<- | Hx]; [done | by apply Hall].
Qed.

(** *** The pixels of a depth map *)

Lemma snd_zip_seq {A} (row : list A) : ∀ k, map snd (zip (seq k (length row)) row) = row.
Proof. induction row as [|x row IH]; intros k; [done|]. simpl. by rewrite IH. Qed.

Lemma fst_zip_seq {A} (row : list A) : ∀ k,
  map fst (zip (seq k (length row)) row) = seq k (length row).
Proof. induction row as [|x row IH]; intros k; [done|]. simpl. by rewrite IH. Qed.

Lemma in_zip_seq {A} (row : list A) (c : nat) (z : A) : ∀ k,
  In (c, z) (zip (seq k (length row)) row) ↔ ∃ j, c = (k + j)%nat ∧ row !! j = Some z.
Proof.
  induction row as [|x row IH]; intros k; simpl.
  - split; [done | by intros (j & _ & ?)].
  - rewrite IH. split.
    + intros [[= <- <-] | (j & -> & Hj)].
      * exists 0%nat. split; [lia | done].
      * exists (S j). split; [lia | done].
    + intros ([|j] & -> & Hj); simpl in Hj.
      * left. injection Hj as ->. f_equal. lia.
      * right. exists j. split; [lia | done].
Qed.

Lemma ravel_points depth : Np.ravel depth = map snd (points depth).
Proof.
  unfold Np.ravel, points. induction depth as [|row depth IH]; [done|].
  simpl. by rewrite map_app, snd_zip_seq, IH.
Qed.

Lemma ravel_meshgrid depth (n : nat) :
  Forall (λ row, length row = n) depth →
  Np.ravel (Np.meshgrid_c (length depth) n) = map fst (points depth).
Proof.
  unfold Np.ravel, Np.meshgrid_c, points. induction 1 as [|row depth Hrow _ IH]; [done|].
  simpl. by rewrite map_app, fst_zip_seq, Hrow, IH.
Qed.

Lemma ravel_map {A B} (f : A → B) (a : list (list A)) :
  Np.ravel (map (map f) a) = map f (Np.ravel a).
Proof. unfold Np.ravel. by rewrite concat_map. Qed.

Lemma in_points depth (c : nat) (z : R) :
  In (c, z) (points depth) ↔ ∃ r row, depth !! r = Some row ∧ row !! c = Some z.
Proof.
  unfold points. induction depth as [|row depth IH]; simpl.
  - split; [done | by intros (r & row & ? & _)].
  - rewrite in_app_iff, IH, in_zip_seq. split.
    + intros [(j & -> & Hj) | (r & row' & Hr & Hc)].
      * by exists 0%nat, row.
      * by exists (S r), row'.
    + intros ([|r] & row' & Hr & Hc); simpl in Hr.
      * left. injection Hr as ->. by exists c.
      * right. by exists r, row'.
Qed.

Lemma in_valid_points depth (c : nat) (z : R) :
  In (c, z) (valid_points depth)
  ↔ ∃ r row, depth !! r = Some row ∧ row !! c = Some z ∧ (0 < z)%R.
Proof.
  unfold valid_points. rewrite filter_In, in_points, bool_decide_eq_true. simpl.
  split.
  - intros [(r & row & Hr & Hc) Hz]. by exists r, row.
  - intros (r & row & Hr & Hc & Hz). split; [by exists r, row | done].
Qed.

(** The depths the classifier collects for sector [i] are those of the
    points assigned to it. *)
Lemma in_sector_depths self depth (i : nat) (z : R) :
  In z (map snd (List.filter (in_sector self i) (valid_points depth)))
  ↔ assigned self depth i z.
Proof.
  rewrite in_map_iff. unfold assigned. split.
  - intros ([c z'] & Hz & Hin). simpl in Hz. subst z'.
    apply filter_In in Hin as [Hin Hsec].
    apply in_valid_points in Hin as (r & row & Hr & Hc & Hpos).
    unfold in_sector in Hsec. simpl in Hsec.
    apply andb_true_iff in Hsec as [Hlo Hhi].
    apply bool_decide_eq_true in Hlo, Hhi. by exists r, c, row.
  - intros (r & c & row & Hr & Hc & Hpos & Hlo & Hhi).
    exists (c, z). split; [done|]. apply filter_In. split.
    + apply in_valid_points. by exists r, row.
    + unfold in_sector. simpl. by rewrite !bool_decide_eq_true_2.
Qed.

(** *** The status of one sector *)

Lemma sector_state_cases self depth (i : nat) :
  sector_state self depth i = "High" ∨ sector_state self depth i = "Low".
Proof. unfold sector_state. repeat case_match; auto. Qed.

Lemma sector_state_high self depth (i : nat) :
  sector_state self depth i = "High"
  ↔ ∃ m, is_minimum (assigned self depth i) m ∧ (m < threshold_distance self)%R.
Proof.
  unfold sector_state.
  set (zs := map snd (List.filter (in_sector self i) (valid_points depth))).
  assert (∀ z, In z zs ↔ assigned self depth i z) as Hzs
    by apply in_sector_depths.
  destruct (existsb _ _) eqn:Hany.
  - assert (zs ≠ []) as Hne.
    { apply existsb_exists in Hany as (pt & Hin & Hsec).
      intros Hnil. assert (In pt.2 zs) as Habs; [|by rewrite Hnil in Habs].
      apply in_map, filter_In. done. }
    destruct (min_spec zs Hne) as [Hmin_in Hmin_le].
    case_bool_decide as Hlt.
    + split; [intros _|done]. exists (Np.min zs). split; [|done].
      split; [by apply Hzs|]. intros z Hz. by apply Hmin_le, Hzs.
    + split; [done|]. intros (m & [Hm _] & Hmlt).
      apply Hzs, Hmin_le in Hm. lra.
  - split; [done|]. intros (m & [Hm _] & _). apply Hzs in Hm.
    apply in_map_iff in Hm as (pt & _ & Hin). apply filter_In in Hin as [Hin Hsec].
    assert (existsb (in_sector self i) (valid_points depth) = true) as Htrue
      by (apply existsb_exists; eauto).
    congruence.
Qed.

Lemma sector_state_empty self depth (i : nat) :
  (∀ z, ¬ assigned self depth i z) → sector_state self depth i = "Low".
Proof.
  intros Hnone. destruct (sector_state_cases self depth i) as [Hhigh | Hlow]; [|done].
  apply sector_state_high in Hhigh as (m & [Hm _] & _). by destruct (Hnone m).
Qed.

(** *** The dictionary *)

Lemma foldl_insert_other (f : gmap string string → nat * string → gmap string string)
    (g : nat → string) (label : string) :
  (∀ st i l, f st (i, l) = <[l := g i]> st) →
  ∀ (l : list (nat * string)) st,
    label ∉ l.*2 → foldl f st l !! label = st !! label.
Proof.
  intros Hf. induction l as [|[i l0] l IH]; intros st Hnotin; [done|].
  simpl in *. apply not_elem_of_cons in Hnotin as [Hne Hnotin].
  rewrite IH, Hf by done. by apply lookup_insert_ne.
Qed.

Lemma foldl_insert_enumerated (f : gmap string string → nat * string → gmap string string)
    (g : nat → string) :
  (∀ st i l, f st (i, l) = <[l := g i]> st) →
  ∀ (names : list string) (k : nat) st (j : nat) label,
    NoDup names → names !! j = Some label →
    foldl f st (zip (seq k (length names)) names) !! label = Some (g (k + j)%nat).
Proof.
  intros Hf. induction names as [|l0 names IH]; intros k st j label Hnd Hj; [done|].
  apply NoDup_cons in Hnd as [Hnotin Hnd]. simpl.
  destruct j as [|j]; simpl in Hj.
  - injection Hj as ->.
    rewrite (foldl_insert_other f g label Hf).
    + rewrite Hf, Nat.add_0_r. apply lookup_insert_eq.
    + rewrite snd_zip; [done|]. by rewrite length_seq.
  - rewrite (IH (S k) _ j label Hnd Hj). do 2 f_equal. lia.
Qed.


(** The array program computes, for each label, the pointwise status. *)
Lemma analyze_sectors_pointwise self depth (i : nat) (label : string) :
  rectangular depth → NoDup (sector_labels self) →
  sector_labels self !! i = Some label →
  analyze_sectors self (Some depth) !! label = Some (sector_state self depth i).
Proof.
  intros Hrect Hnd Hi. unfold analyze_sectors, enumerate. cbv zeta.
  match goal with |- foldl ?f _ _ !! _ = _ =>
    assert (∀ st j l, f st (j, l) = <[l := sector_state self depth j]> st) as Hf
  end.
  { intros st j l.
    rewrite ravel_map, ravel_points, (ravel_meshgrid depth (Np.ncols depth) Hrect).
    rewrite !map_map, !select_map. fold (valid_points depth).
    rewrite !zip_with_map, !map_map, select_map.
    rewrite any_existsb.
    change ((if existsb (in_sector self j) (valid_points depth)
             then <[l := if bool_decide
                              (Np.min (map snd (List.filter (in_sector self j)
                                                            (valid_points depth)))
                               < threshold_distance self)%R
                         then "High" else "Low"]> st
             else <[l := "Low"]> st)
            = <[l := sector_state self depth j]> st).
    unfold sector_state. by destruct (existsb _ _). }
  exact (foldl_insert_enumerated _ _ Hf (sector_labels self) 0 ∅ i label Hnd Hi).
Qed.




Lemma foldl_insert_shape
    (f : gmap string string → nat * string → gmap string string) :
  (∀ st i l, ∃ v, (v = "High" ∨ v = "Low") ∧ f st (i, l) = <[l := v]> st) →
  ∀ (pairs : list (nat * string)) (st : gmap string string),
    (∀ k, is_Some (foldl f st pairs !! k) ↔ k ∈ pairs.*2 ∨ is_Some (st !! k)) ∧
    (∀ k v, foldl f st pairs !! k = Some v →
            v = "High" ∨ v = "Low" ∨ st !! k = Some v).
Proof.
  intros Hf. induction pairs as [|[i l] pairs IH]; intros st.
  - split; [|by auto]. intros k. simpl. rewrite elem_of_nil. tauto.
  - simpl. destruct (Hf st i l) as (v & Hv & ->).
    destruct (IH (<[l := v]> st)) as [IHdom IHval]. split.
    + intros k. rewrite IHdom, elem_of_cons, lookup_insert_is_Some.
      destruct (decide (l = k)) as [-> | Hne]; [tauto|]. split.
      * intros [? | [? | [_ ?]]]; [by left; right | done | by right].
      * intros [[-> | ?] | ?]; [done | by left | by right; right].
    + intros k w Hk. destruct (IHval k w Hk) as [? | [? | Hst]]; [tauto..|].
      apply lookup_insert_Some in Hst as [[_ <-] | [_ Hst]]; tauto.
Qed.

Lemma foldl_insert_low_shape (names : list string) :
  ∀ st : gmap string string,
    (∀ k, is_Some (foldl (λ status l, <[l := "Low"]> status) st names !! k)
          ↔ k ∈ names ∨ is_Some (st !! k)) ∧
    (∀ k v, foldl (λ status l, <[l := "Low"]> status) st names !! k = Some v →
            v = "Low" ∨ st !! k = Some v).
Proof.
  induction names as [|l names IH]; intros st.
  - split; [|by auto]. intros k. simpl. rewrite elem_of_nil. tauto.
  - simpl. destruct (IH (<[l := "Low"]> st)) as [IHdom IHval]. split.
    + intros k. rewrite IHdom, elem_of_cons, lookup_insert_is_Some.
      destruct (decide (l = k)) as [-> | Hne]; [tauto|]. split.
      * intros [? | [? | [_ ?]]]; [by left; right | done | by right].
      * intros [[-> | ?] | ?]; [done | by left | by right; right].
    + intros k w Hk. destruct (IHval k w Hk) as [? | Hst]; [tauto|].
      apply lookup_insert_Some in Hst as [[_ <-] | [_ Hst]]; tauto.
Qed.

Lemma analyze_sectors_keys_values self depth_frame :
  (∀ label, is_Some (analyze_sectors self depth_frame !! label)
            ↔ label ∈ sector_labels self) ∧
  (∀ label status, analyze_sectors self depth_frame !! label = Some status →
                   status = "High" ∨ status = "Low").
Proof.
  unfold analyze_sectors. destruct depth_frame as [depth|].
  - cbv zeta.
    match goal with |- context [foldl ?f ∅ _] =>
      destruct (foldl_insert_shape f) with (pairs := enumerate (sector_labels self))
                                           (st := (∅ : gmap string string))
        as [Hdom Hval]
    end.
    { intros st i l. destruct (Np.any _); eexists; split; try reflexivity.
      - case_bool_decide; auto.
      - by right. }
    split.
    + intros label. rewrite Hdom, lookup_empty. unfold enumerate.
      rewrite snd_zip by (by rewrite length_seq).
      split; [intros [? | [? ?]]; done | by left].
    + intros label status Hl. destruct (Hval label status Hl) as [? | [? | Habs]];
        [by left | by right | by rewrite lookup_empty in Habs].
  - destruct (foldl_insert_low_shape (sector_labels self) ∅) as [Hdom Hval]. split.
    + intros label. rewrite Hdom, lookup_empty.
      split; [intros [? | [? ?]]; done | by left].
    + intros label status Hl. destruct (Hval label status Hl) as [? | Habs];
        [by right | by rewrite lookup_empty in Habs].
Qed.

(** *** The program against the specification's wording *)







(** *** An evaluated frame *)

Lemma mod_small (a : R) : (0 <= a < PI)%R → Np.mod_ a PI = a.
Proof.
  intros [Hlo Hhi]. unfold Np.mod_. pose proof PI_RGT_0 as Hpi.
  assert (0 <= a / PI < 1)%R as [Hq0 Hq1].
  { split.
    - apply Rmult_le_pos; [done|]. left. by apply Rinv_0_lt_compat.
    - apply (Rmult_lt_reg_r PI); [done|]. unfold Rdiv.
      rewrite Rmult_assoc, Rinv_l by lra. lra. }
  rewrite <- (Int_part_spec (a / PI) 0) by (simpl; lra). simpl. lra.
Qed.

Lemma atan_tiny : (0 < atan (1 / 1050) < PI / 6)%R.
Proof.
  pose proof PI_RGT_0 as Hpi.
  pose proof (atan_bound (1 / 1050)) as [_ Hub].
  split.
  - rewrite <- atan_0. apply atan_increasing. lra.
  - apply Rnot_le_lt. intros Hge.
    assert (sin (PI / 6) <= sin (atan (1 / 1050)))%R as Hsin
      by (apply sin_incr_1; lra).
    rewrite sin_PI6, sin_atan in Hsin.
    assert (1 <= R_sqrt.sqrt (1 + (1 / 1050)²))%R as Hsqrt.
    { rewrite <- sqrt_1 at 1. apply sqrt_le_1_alt. unfold Rsqr. lra. }
    assert (1 / 1050 / R_sqrt.sqrt (1 + (1 / 1050)²) <= 1 / 1050)%R as Hdiv.
    { apply (Rmult_le_reg_r (R_sqrt.sqrt (1 + (1 / 1050)²))); [lra|].
      unfold Rdiv at 1. rewrite Rmult_assoc, Rinv_l by lra. nra. }
    lra.
Qed.

Lemma atan_small : (0 < atan (1 / 1050) < PI / 5)%R.
Proof. pose proof atan_tiny. pose proof PI_RGT_0. lra. Qed.

Lemma azimuth_scan_line : azimuth (init_default 0) 320 0.5 = atan (1 / 1050).
Proof.
  unfold azimuth, init_default, init; cbn [cx fx angle_y].
  replace (Np.radians 0) with 0%R by (unfold Np.radians; lra).
  rewrite cos_0, sin_0. rewrite (INR_IZR_INZ 320).
  change (Z.of_nat 320) with 320%Z.
  unfold Np.arctan2. rewrite decide_True by lra.
  replace ((320 - 319.5) * 0.5 / 525)%R with (1 / 2100)%R by lra.
  replace (1 * (1 / 2100) + 0 * 0.5)%R with (1 / 2100)%R by lra.
  replace (- 0 * (1 / 2100) + 1 * 0.5)%R with (1 / 2)%R by lra.
  replace (1 / 2100 / (1 / 2))%R with (1 / 1050)%R by field.
  apply mod_small. pose proof atan_small. pose proof PI_RGT_0. lra.
Qed.

Lemma scan_line_rectangular : rectangular scan_line.
Proof. unfold rectangular, scan_line. by repeat constructor. Qed.

Lemma labels_NoDup : NoDup labels.
Proof. apply (bool_decide_unpack (NoDup labels)). by vm_compute. Qed.






(** *** A bin without a label *)




End Classifier.

(** * Further properties *)

(** ** The dispatcher: rejection, simulation mode, the wire, reconnection *)

Section DispatcherInvariants.

Import Arduino.

Implicit Types (self : ArduinoComm) (s : Serial) (c : string).

(** The five ways a call of [send_command] can go. *)
Lemma send_command_cases command self :
  (is_valid command = false ∧ send_command command self = (false, self, [])) ∨
  (∃ c, command = Some c ∧ is_valid command = true ∧
        ((last_command self = Some c ∧ send_command command self = (true, self, [])) ∨
         (last_command self ≠ Some c ∧ link_up self = false ∧
          send_command command self
          = (true, {| serial := serial self; last_command := Some c;
                      connected := connected self |}, [])) ∨
         (last_command self ≠ Some c ∧ link_up self = true ∧
          ∃ s, serial self = Some s ∧ is_open s = true ∧
               ((write s).1 = false ∧
                send_command command self
                = (true, {| serial := Some (write s).2; last_command := Some c;
                            connected := true |}, [Write (payload c) true]) ∨
                (write s).1 = true ∧
                send_command command self
                = (false, {| serial := Some (write s).2;
                             last_command := last_command self;
                             connected := false |}, [Write (payload c) false]))))).
Proof.
  destruct (is_valid command) eqn:Hv.
  - right. destruct command as [c|]; [|done]. exists c. split; [done|]. split; [done|].
    destruct (decide (last_command self = Some c)) as [Heq | Hne].
    + left. split; [done|]. by apply send_command_same.
    + assert (Some c ≠ last_command self) as Hne' by congruence.
      destruct (link_up self) eqn:Hup.
      * right. right. split; [done|]. split; [done|].
        apply link_up_spec in Hup as (Hc & s & Hs & Ho). exists s.
        split; [done|]. split; [done|].
        destruct (write s).1 eqn:Hw.
        -- right. split; [done|]. by apply send_command_raised.
        -- left. split; [done|]. by apply send_command_sent.
      * right. left. split; [done|]. split; [done|]. by apply send_command_simulated.
  - left. split; [done|]. by apply send_command_invalid.
Qed.

(** X1: [send_command] returns [False] exactly when the command is not
    one of the four known ones (for instance [None]) or the write raised;
    an unknown command changes nothing and leaves the port alone. *)
Theorem send_command_false_iff command self :
  ((send_command command self).1.1 = false
   ↔ is_valid command = false
     ∨ ∃ data, (send_command command self).2 = [Write data false]) ∧
  (is_valid command = false → send_command command self = (false, self, [])).
Proof.
  split; [|apply send_command_invalid].
  destruct (send_command_cases command self)
    as [[Hv Hr] | (c & Hc & Hv & [[_ Hr] | [(_ & _ & Hr) | (_ & _ & s & _ & _ & [[_ Hr] | [_ Hr]])]])];
    rewrite Hr; simpl.
  - split; [by left | done].
  - split; [done|]. intros [Hinv | [data Hdata]]; [congruence | discriminate].
  - split; [done|]. intros [Hinv | [data Hdata]]; [congruence | discriminate].
  - split; [done|]. intros [Hinv | [data Hdata]]; [congruence | discriminate].
  - split; [|done]. intros _. right. by eexists.
Qed.

Lemma send_command_false_iff_witness :
  (send_command None stopped).1.1 = false ∧
  send_command None stopped = (false, stopped, []) ∧
  send_command (Some "BACKWARD") stopped = (false, stopped, []).
Proof.
  destruct (send_command_false_iff None stopped) as [Hiff Hinv].
  destruct (send_command_false_iff (Some "BACKWARD") stopped) as [_ Hinv'].
  split; [apply Hiff; by left|]. split; [by apply Hinv | by apply Hinv'].
Defined.

Lemma send_all_app cmds1 cmds2 self :
  send_all (cmds1 ++ cmds2) self
  = ((send_all cmds1 self).1.1 ++ (send_all cmds2 (send_all cmds1 self).1.2).1.1,
     (send_all cmds2 (send_all cmds1 self).1.2).1.2,
     (send_all cmds1 self).2 ++ (send_all cmds2 (send_all cmds1 self).1.2).2).
Proof.
  revert self. induction cmds1 as [|c cmds1 IH]; intros self; simpl.
  - by destruct (send_all cmds2 self) as [[? ?] ?].
  - destruct (send_command c self) as [[ok self1] evs1]. rewrite IH.
    destruct (send_all cmds1 self1) as [[oks self2] evs2]. simpl.
    by rewrite app_assoc.
Qed.

(** One call keeps [last_command] valid-or-absent. *)
Lemma send_command_last_command_valid command self :
  last_command_valid self → last_command_valid (send_command command self).1.2.
Proof.
  intros Hinv.
  destruct (send_command_cases command self)
    as [[Hv Hr] | (c & Hc & Hv & [[_ Hr] | [(_ & _ & Hr) | (_ & _ & s & _ & _ & [[_ Hr] | [_ Hr]])]])];
    rewrite Hr; simpl; try done; subst command; by right.
Qed.

(** X2: from [__init__] on, whatever is sent, [last_command] (what
    [get_last_command] returns) is [None] or one of the four known
    commands: a rejected command is never recorded. *)
Theorem last_command_always_valid port cmds :
  get_last_command (send_all cmds (init port)).1.2 = None
  ∨ is_valid (get_last_command (send_all cmds (init port)).1.2) = true.
Proof.
  assert (∀ self, last_command_valid self →
                  last_command_valid (send_all cmds self).1.2) as Hall.
  { induction cmds as [|c cmds IH]; intros self Hinv; [done|]. simpl.
    pose proof (send_command_last_command_valid c self Hinv) as H1.
    destruct (send_command c self) as [[ok self1] evs1]. simpl in H1.
    specialize (IH self1 H1).
    by destruct (send_all cmds self1) as [[oks self2] evs2]. }
  apply Hall. by left.
Qed.

(** One call on a link that is down stays off the port and leaves the
    link down. *)
Lemma send_command_link_down command self :
  link_up self = false →
  (send_command command self).2 = [] ∧
  link_up (send_command command self).1.2 = false ∧
  (send_command command self).1.1 = is_valid command.
Proof.
  intros Hdown.
  destruct (send_command_cases command self)
    as [[Hv Hr] | (c & Hc & Hv & [[_ Hr] | [(_ & _ & Hr) | (_ & Hup & _)]])];
    [rewrite Hr, Hv.. | congruence]; done.
Qed.

Lemma send_all_link_down cmds : ∀ self,
  link_up self = false →
  (send_all cmds self).2 = [] ∧
  link_up (send_all cmds self).1.2 = false ∧
  (send_all cmds self).1.1 = is_valid <$> cmds.
Proof.
  induction cmds as [|c cmds IH]; intros self Hdown; [done|]. simpl.
  destruct (send_command_link_down c self Hdown) as (He & Hd & Hf).
  destruct (send_command c self) as [[ok self1] evs1]. simpl in *.
  destruct (IH self1 Hd) as (He' & Hd' & Hf').
  destruct (send_all cmds self1) as [[oks self2] evs2]. simpl in *.
  by subst.
Qed.

(** X3: while the link is down (no port, port closed, or marked
    disconnected after a failed write) [send_command] never touches the
    port and never brings the link back: each call just reports whether
    the command was a known one. *)
Theorem link_down_is_silent cmds self :
  link_up self = false →
  (send_all cmds self).2 = [] ∧
  link_up (send_all cmds self).1.2 = false ∧
  (send_all cmds self).1.1 = is_valid <$> cmds.
Proof. apply send_all_link_down. Qed.

Lemma link_down_is_silent_witness :
  (send_all [Some "FORWARD"; None; Some "STOP"; Some "STOP"] simulated).2 = [] ∧
  link_up (send_all [Some "FORWARD"; None; Some "STOP"; Some "STOP"] simulated).1.2 = false ∧
  (send_all [Some "FORWARD"; None; Some "STOP"; Some "STOP"] simulated).1.1
  = [true; false; true; true].
Proof.
  apply (link_down_is_silent [Some "FORWARD"; None; Some "STOP"; Some "STOP"] simulated).
  reflexivity.
Defined.

Lemma payload_inj c1 c2 : payload c1 = payload c2 → c1 = c2.
Proof.
  unfold payload. revert c2. induction c1 as [|a c1 IH]; intros [|b c2]; simpl; try done.
  - intros [= _ H]. by destruct c2.
  - intros [= _ H]. by destruct c1.
  - intros [= <- H]. f_equal. by apply IH.
Qed.

Lemma distinct_payloads (written : list string) : ∀ previous : option string,
  distinct_neighbours (previous :: (Some <$> written)) →
  distinct_neighbours (payload <$> written).
Proof.
  induction written as [|c [|c' written] IH]; intros previous Hd; [done..|].
  destruct Hd as [_ Hd]. split.
  - intros Heq. apply payload_inj in Heq. destruct Hd as [Hne _]. congruence.
  - by apply (IH (Some c)).
Qed.

Lemma wire_discipline_commands cmds : ∀ self,
  ∃ written : list string,
    attempts (send_all cmds self).2 = payload <$> written ∧
    Forall (λ c, c ∈ valid_commands) written ∧
    distinct_neighbours (last_command self :: (Some <$> written)).
Proof.
  induction cmds as [|command cmds IH]; intros self.
  { by exists []. }
  simpl.
  destruct (send_command_cases command self)
    as [[Hv Hr] | (c & Hc & Hv & [[_ Hr] | [(Hne & Hdown & Hr) | (Hne & _ & s & _ & _ & [[_ Hr] | [_ Hr]])]])];
    rewrite Hr.
  - destruct (IH self) as (written & Ha & Hw & Hd).
    destruct (send_all cmds self) as [[oks self2] evs2]. by exists written.
  - destruct (IH self) as (written & Ha & Hw & Hd).
    destruct (send_all cmds self) as [[oks self2] evs2]. by exists written.
  - destruct (send_all_link_down cmds
                {| serial := serial self; last_command := Some c;
                   connected := connected self |}) as (He & _); [done|].
    destruct (send_all cmds _) as [[oks self2] evs2]. simpl in *. subst evs2.
    by exists [].
  - destruct (IH {| serial := Some (write s).2; last_command := Some c;
                    connected := true |}) as (written & Ha & Hw & Hd).
    destruct (send_all cmds _) as [[oks self2] evs2]. simpl in *.
    exists (c :: written). split; [by rewrite Ha|]. split.
    + apply Forall_cons. split; [|done].
      subst command. unfold is_valid in Hv. by apply bool_decide_eq_true in Hv.
    + split; [congruence | done].
  - destruct (send_all_link_down cmds
                {| serial := Some (write s).2; last_command := last_command self;
                   connected := false |}) as (He & _); [done|].
    destruct (send_all cmds _) as [[oks self2] evs2]. simpl in *. subst evs2.
    exists [c]. split; [done|]. split.
    + apply Forall_cons. split; [|done].
      subst command. unfold is_valid in Hv. by apply bool_decide_eq_true in Hv.
    + split; [congruence | done].
Qed.

(** X4: what reaches the port.  Over any run of calls, from any state,
    the payloads handed to [serial.write] are known commands followed by
    a line feed, the first differs from the command remembered at the
    start, and no two successive ones are equal. *)
Theorem wire_discipline cmds self :
  ∃ written : list string,
    attempts (send_all cmds self).2 = payload <$> written ∧
    Forall (λ c, c ∈ valid_commands) written ∧
    distinct_neighbours (last_command self :: (Some <$> written)) ∧
    distinct_neighbours (attempts (send_all cmds self).2).
Proof.
  destruct (wire_discipline_commands cmds self) as (written & Ha & Hv & Hd).
  exists written. repeat split; try done.
  rewrite Ha. by apply (distinct_payloads written (last_command self)).
Qed.

(** X5: [reconnect] is [close] followed by a fresh connection, and it
    clears the deduplication memory: on a new port that is open and
    accepts the write, every known command is transmitted, also the one
    that was the last command before the reconnection; when the port
    cannot be opened the dispatcher is as after a failed start, and a
    second [close] writes nothing. *)
Theorem reconnect_forgets_last_command c self s :
  is_valid (Some c) = true → is_open s = true → (write s).1 = false →
  (reconnect self (Some s)).2 = (close self).2 ∧
  send_command (Some c) (reconnect self (Some s)).1
  = (true, {| serial := Some (write s).2; last_command := Some c; connected := true |},
     [Write (payload c) true]) ∧
  (reconnect self None).1 = init None ∧
  close (close self).1 = ((close self).1, []).
Proof.
  intros Hv Ho Hw. unfold reconnect.
  destruct (close self) as [self1 evs] eqn:Hclose.
  assert (self1 = {| serial := None; last_command := None; connected := false |}) as ->
    by (pose proof (close_resets self) as Hr; by rewrite Hclose in Hr).
  split; [done|]. split; [|done].
  by apply send_command_sent.
Qed.

Lemma reconnect_forgets_last_command_witness :
  send_command (Some "STOP") stopped = (true, stopped, []) ∧
  (reconnect stopped (Some {| is_open := true; faults := [] |})).2
  = [Write (payload "STOP") true; ClosePort] ∧
  send_command (Some "STOP")
    (reconnect stopped (Some {| is_open := true; faults := [] |})).1
  = (true, stopped, [Write (payload "STOP") true]).
Proof.
  split; [reflexivity|].
  destruct (reconnect_forgets_last_command "STOP" stopped {| is_open := true; faults := [] |})
    as (Hevs & Hsend & _); [reflexivity..|].
  split; [by rewrite Hevs | exact Hsend].
Defined.

End DispatcherInvariants.

(** ** The arbiter under operator override *)

Section ArbiterOverrides.

Import Robot.

Implicit Types (cfg : Config) (self : RobotController) (ss : gmap string string).

(** X6: with the ARUCO_ONLY override the arbiter looks at the detection
    flag alone: obstacles (the clear flag, the sector status, the
    avoidance command), the marker's distance and the configuration do
    not change its answer, which is the tracking command with mode
    ARUCO_TRACKING when a marker is detected and STOP with mode SEARCH
    when none is. *)
Theorem aruco_only_ignores_obstacles cfg cfg' self pc pc' ss ss' v v' ar ar' ac :
  force_mode self = Some "ARUCO_ONLY" → Aruco.detected ar = Aruco.detected ar' →
  decision_logic cfg self pc ss v ar ac = decision_logic cfg' self pc' ss' v' ar' ac ∧
  (decision_logic cfg self pc ss v ar ac).1
  = (if Aruco.detected ar then ac else Some "STOP") ∧
  mode (decision_logic cfg self pc ss v ar ac).2
  = (if Aruco.detected ar then "ARUCO_TRACKING" else "SEARCH") ∧
  decision_logic cfg self pc ss v ar ac
  = if Aruco.detected ar then (ac, set_mode self "ARUCO_TRACKING")
    else (Some "STOP", set_mode self "SEARCH").
Proof.
  intros Hf Hdet. unfold decision_logic. rewrite Hf, Hdet.
  rewrite bool_decide_eq_false_2 by discriminate.
  rewrite bool_decide_eq_true_2 by done.
  by destruct (Aruco.detected ar').
Qed.

(** Under the override, an obstacle ahead and a marker in view of a
    controller fresh from [__init__] (mode INIT): the tracking command is
    returned and the mode becomes ARUCO_TRACKING. *)
Lemma aruco_only_ignores_obstacles_witness :
  mode (set_force_mode started (Some "ARUCO_ONLY")) = "INIT" ∧
  (decision_logic example_config (set_force_mode started (Some "ARUCO_ONLY")) false
                  VFH.left_front_blocked (Some "RIGHT")
                  (marker "CENTER" (Some 0.1%float)) (Some "FORWARD")).1
  = Some "FORWARD" ∧
  mode (decision_logic example_config (set_force_mode started (Some "ARUCO_ONLY")) false
                       VFH.left_front_blocked (Some "RIGHT")
                       (marker "CENTER" (Some 0.1%float)) (Some "FORWARD")).2
  = "ARUCO_TRACKING".
Proof.
  split; [reflexivity|].
  destruct (aruco_only_ignores_obstacles example_config example_config
              (set_force_mode started (Some "ARUCO_ONLY")) false true
              VFH.left_front_blocked all_clear (Some "RIGHT") (Some "FORWARD")
              (marker "CENTER" (Some 0.1%float)) (marker "CENTER" None)
              (Some "FORWARD") eq_refl eq_refl) as (_ & Hcmd & Hmode & _).
  by split.
Defined.

(** X7: whatever the inputs, the arbiter leaves [mode] at one of
    VFH_ACTIVE, ARUCO_TRACKING, ARUCO_REACHED and SEARCH, changes nothing
    else of the controller, and returns the avoidance command, the
    tracking command or STOP; the sector status dictionary and the
    settings other than the approach distance (SEARCH_MODE_BEHAVIOR in
    particular) have no influence on the result. *)
Theorem decision_logic_range cfg cfg' self pc ss ss' v ar ac :
  ARUCO_APPROACH_DISTANCE cfg = ARUCO_APPROACH_DISTANCE cfg' →
  decision_logic cfg self pc ss v ar ac = decision_logic cfg' self pc ss' v ar ac ∧
  (decision_logic cfg self pc ss v ar ac).1 ∈ [v; ac; Some "STOP"] ∧
  mode (decision_logic cfg self pc ss v ar ac).2
    ∈ ["VFH_ACTIVE"; "ARUCO_TRACKING"; "ARUCO_REACHED"; "SEARCH"] ∧
  (decision_logic cfg self pc ss v ar ac).2
  = set_mode self (mode (decision_logic cfg self pc ss v ar ac).2).
Proof.
  intros Happroach. unfold decision_logic. rewrite Happroach.
  split; [by repeat case_bool_decide|].
  repeat case_bool_decide; repeat case_match; simpl;
    (split; [set_solver | split; [set_solver | done]]).
Qed.

Lemma decision_logic_range_witness :
  decision_logic example_config started true all_clear (Some "FORWARD") no_marker None
  = (Some "STOP", set_mode started "SEARCH").
Proof.
  destruct (decision_logic_range example_config
              {| ARUCO_APPROACH_DISTANCE := 0.5; SEARCH_MODE_BEHAVIOR := "ROTATE";
                 VFH_THRESHOLD_DISTANCE := 1; VFH_NUM_SECTORS := 5;
                 VFH_TURN_DURATION := 0.2; VFH_FORWARD_DURATION := 0.4 |}
              started true all_clear VFH.left_front_blocked (Some "FORWARD")
              no_marker None eq_refl) as [Hsame _].
  rewrite Hsame. reflexivity.
Defined.

End ArbiterOverrides.

(** ** The control loop: what it hands the dispatcher, and how it ends *)

Section ControlLoopInvariants.

Import Robot.

Implicit Types (cfg : Config) (self : RobotController) (i : Input) (p : Percept).

Lemma get_tracking_command_detected (ar : Aruco.result) :
  Aruco.detected ar = true →
  Arduino.is_valid (Aruco.get_tracking_command ar) = true.
Proof.
  intros Hdet. unfold Aruco.get_tracking_command. rewrite Hdet. simpl.
  repeat case_bool_decide; done.
Qed.

Lemma motion_valid (command : option string) :
  VFH.motion command → Arduino.is_valid command = true.
Proof. intros [-> | [-> | ->]]; done. Qed.

(** The arbiter's command in an iteration is a known command, and the
    avoidance controller keeps steering. *)
Lemma decide_cycle_valid cfg self p :
  VFH.keyed_by_labels (sector_status p) → steering self →
  Arduino.is_valid (decide_cycle cfg self p).1 = true ∧
  steering (decide_cycle cfg self p).2.
Proof.
  intros Hkeys Hsteer. unfold decide_cycle, steering in *.
  pose proof (get_vfh_command_motion (vfh self) (sector_status p) (now p) Hkeys Hsteer)
    as Hm.
  pose proof (get_vfh_command_returns_current (vfh self) (sector_status p) (now p))
    as Hret.
  destruct (VFH.get_vfh_command (vfh self) (sector_status p) (now p)) as [c v].
  simpl in Hm, Hret. subst c. split.
  - unfold decision_logic.
    repeat case_bool_decide; repeat case_match; simpl;
      first [ by apply motion_valid | by apply get_tracking_command_detected | done ].
  - by rewrite decision_logic_vfh.
Qed.

Lemma cycle_steering cfg self i :
  keyed i → steering self → steering (cycle cfg self i).1.2.
Proof.
  intros Hkeys Hsteer. unfold steering in *. rewrite cycle_vfh.
  destruct (frames i) as [p|] eqn:Hf; [|done].
  by apply get_vfh_command_motion; [apply Hkeys|].
Qed.

Lemma cycle_dispatches_valid cfg self i :
  keyed i → steering self →
  Forall (λ c, Arduino.is_valid c = true) (dispatches (cycle cfg self i).2).
Proof.
  intros Hkeys Hsteer. destruct (frames i) as [p|] eqn:Hf.
  - destruct (cycle_spec cfg self i p Hf) as (-> & _).
    destruct (decide_cycle_valid cfg self p (Hkeys p Hf) Hsteer) as [Hv _].
    apply Forall_app. split; repeat case_decide; repeat constructor; done.
  - by rewrite cycle_no_frames.
Qed.

Lemma loop_dispatches_valid cfg inputs : ∀ self,
  Forall keyed inputs → steering self →
  Forall (λ c, Arduino.is_valid c = true) (dispatches (loop cfg self inputs).2).
Proof.
  induction inputs as [|i rest IH]; intros self Hkeys Hsteer; [by constructor|].
  apply Forall_cons in Hkeys as [Hk Hrest]. cbn [loop].
  destruct (running self); [|by constructor].
  pose proof (cycle_dispatches_valid cfg self i Hk Hsteer) as Hc.
  pose proof (cycle_steering cfg self i Hk Hsteer) as Hs.
  destruct (cycle cfg self i) as [[continue self1] tr1]. simpl in *.
  destruct continue; [|done].
  specialize (IH self1 Hrest Hs).
  destruct (loop cfg self1 rest) as [self2 tr2]. simpl in *.
  rewrite dispatches_app. by apply Forall_app.
Qed.

Lemma cleanup_dispatches self : dispatches (cleanup self).2 = [Some "STOP"].
Proof.
  unfold cleanup. pose proof (dispatch_spec self (Some "STOP")) as (Hd & _).
  destruct (dispatch self (Some "STOP")) as [self1 tr1].
  destruct (Arduino.close (arduino self1)) as [a evs]. simpl in *.
  rewrite dispatches_app, Hd. simpl. by rewrite dispatches_ports.
Qed.

(** X8: started by [__init__], and fed sector statuses keyed by the five
    sector names, [run] only ever calls [send_command] with one of the
    four known commands, never with [None] or an unknown string: the
    dispatcher has nothing to reject. *)
Theorem run_dispatches_valid cfg port t0 inputs :
  Forall keyed inputs →
  Forall (λ c, Arduino.is_valid c = true)
         (dispatches (run cfg (init cfg port t0) inputs).2).
Proof.
  intros Hkeys. unfold run.
  pose proof (loop_dispatches_valid cfg inputs (init cfg port t0) Hkeys) as Hloop.
  destruct (loop cfg (init cfg port t0) inputs) as [self1 tr1].
  pose proof (cleanup_dispatches self1) as Hclean.
  destruct (cleanup self1) as [self2 tr2]. simpl in *.
  rewrite dispatches_app, Hclean. apply Forall_app. split.
  - apply Hloop. by left.
  - by repeat constructor.
Qed.

Lemma all_clear_keyed : VFH.keyed_by_labels all_clear.
Proof.
  apply map_Forall_lookup. intros label status Hlookup.
  unfold all_clear, VFH.analyze_sectors, VFH.init_default, VFH.init in Hlookup.
  simpl in Hlookup. unfold VFH.labels.
  repeat (apply lookup_insert_Some in Hlookup as [[<- _] | [_ Hlookup]]; [set_solver|]).
  by rewrite lookup_empty in Hlookup.
Qed.

Lemma run_dispatches_valid_witness :
  dispatches (run example_config started [idle; marker_left; idle_emergency]).2
  = [Some "RIGHT"; Some "STOP"; Some "STOP"; Some "STOP"] ∧
  Forall (λ c, Arduino.is_valid c = true)
         (dispatches (run example_config started [idle; marker_left; idle_emergency]).2).
Proof.
  split; [reflexivity|].
  apply (run_dispatches_valid example_config (Some healthy_port) 0).
  repeat (apply Forall_cons; split;
          [intros p [= <-]; exact all_clear_keyed|]).
  apply Forall_nil_2.
Defined.

(** *** Shutdown *)

Lemma port_events_app tr1 tr2 :
  port_events (tr1 ++ tr2) = port_events tr1 ++ port_events tr2.
Proof. apply omap_app. Qed.

Lemma port_events_ports evs : port_events (map Port evs) = evs.
Proof. induction evs as [|e evs IH]; [done|]. simpl. by rewrite IH. Qed.

Lemma attempts_app evs1 evs2 :
  Arduino.attempts (evs1 ++ evs2) = Arduino.attempts evs1 ++ Arduino.attempts evs2.
Proof. apply omap_app. Qed.

Lemma send_command_port_open command (a : Arduino.ArduinoComm) :
  Arduino.port_open a → Arduino.port_open (Arduino.send_command command a).1.2.
Proof.
  intros (s & Hs & Ho). unfold Arduino.port_open.
  destruct (send_command_cases command a)
    as [[Hv Hr] | (c & Hc & Hv & [[_ Hr] | [(_ & _ & Hr) | (_ & _ & s' & Hs' & _ & [[_ Hr] | [_ Hr]])]])];
    rewrite Hr; simpl; eauto.
  all: assert (s' = s) as -> by congruence.
  all: exists (Arduino.write s).2; split; [done|].
  all: unfold Arduino.write; by destruct (Arduino.faults s).
Qed.

Lemma dispatch_port_open self command :
  Arduino.port_open (arduino self) → Arduino.port_open (arduino (dispatch self command).1).
Proof.
  intros Hopen. unfold dispatch.
  pose proof (send_command_port_open command (arduino self) Hopen) as H1.
  by destruct (Arduino.send_command command (arduino self)) as [[r a] evs].
Qed.

Lemma decide_cycle_arduino cfg self p :
  arduino (decide_cycle cfg self p).2 = arduino self.
Proof.
  unfold decide_cycle.
  destruct (VFH.get_vfh_command (vfh self) (sector_status p) (now p)) as [c v].
  unfold decision_logic. repeat case_bool_decide; repeat case_match; done.
Qed.

Lemma cycle_port_open cfg self i :
  Arduino.port_open (arduino self) → Arduino.port_open (arduino (cycle cfg self i).1.2).
Proof.
  intros Hopen. unfold cycle. destruct (frames i) as [p|]; [|done].
  pose proof (decide_cycle_arduino cfg self p) as Ha.
  destruct (decide_cycle cfg self p) as [final self1]. simpl in Ha.
  rewrite <- Ha in Hopen.
  assert (Arduino.port_open (arduino (forward self1 final).1)) as Hf.
  { unfold forward. pose proof (dispatch_port_open self1 final Hopen) as Hd.
    destruct (dispatch self1 final) as [self2 tr]. by case_bool_decide. }
  destruct (forward self1 final) as [self2 tr1]. simpl in Hf.
  assert (Arduino.port_open (arduino (handle_keyboard self2 (key i)).1.2)) as Hk.
  { unfold handle_keyboard. pose proof (dispatch_port_open self2 (Some "STOP") Hf) as Hd.
    destruct (dispatch self2 (Some "STOP")) as [self3 tr]. by repeat case_bool_decide. }
  by destruct (handle_keyboard self2 (key i)) as [[continue self3] tr2].
Qed.

Lemma loop_port_open cfg inputs : ∀ self,
  Arduino.port_open (arduino self) → Arduino.port_open (arduino (loop cfg self inputs).1).
Proof.
  induction inputs as [|i rest IH]; intros self Hopen; [done|]. cbn [loop].
  destruct (running self); [|done].
  pose proof (cycle_port_open cfg self i Hopen) as Hc.
  destruct (cycle cfg self i) as [[continue self1] tr1]. simpl in Hc.
  destruct continue; [|done].
  specialize (IH self1 Hc). by destruct (loop cfg self1 rest) as [self2 tr2].
Qed.

(** X9: however the loop of [run] went, the [finally] clause leaves the
    dispatcher without port, disconnected and with no last command; and
    when the port was open at the start, the last thing handed to
    [serial.write] over the whole run is STOP. *)
Theorem run_ends_with_stop cfg self inputs :
  arduino (run cfg self inputs).1
  = {| Arduino.serial := None; Arduino.last_command := None;
       Arduino.connected := false |} ∧
  (Arduino.port_open (arduino self) →
   last (Arduino.attempts (port_events (run cfg self inputs).2))
   = Some (Arduino.payload "STOP")).
Proof.
  unfold run. pose proof (loop_port_open cfg inputs self) as Hloop.
  destruct (loop cfg self inputs) as [self1 tr1]. simpl in Hloop.
  unfold cleanup. pose proof (dispatch_port_open self1 (Some "STOP")) as Hd.
  destruct (dispatch self1 (Some "STOP")) as [self2 tr2]. simpl in Hd.
  unfold Arduino.close. split; [done|].
  intros Hopen. destruct (Hd (Hloop Hopen)) as (s & -> & ->).
  simpl. rewrite !port_events_app, !attempts_app. simpl.
  rewrite port_events_ports.
  destruct (Arduino.write s) as [[] s']; simpl;
    rewrite !app_assoc; apply last_snoc.
Qed.

Lemma run_ends_with_stop_witness :
  Arduino.attempts (port_events (run example_config started [marker_left; idle]).2)
  = [Arduino.payload "RIGHT"; Arduino.payload "STOP"; Arduino.payload "STOP"] ∧
  last (Arduino.attempts (port_events (run example_config started [marker_left; idle]).2))
  = Some (Arduino.payload "STOP").
Proof.
  split; [reflexivity|].
  apply (run_ends_with_stop example_config started [marker_left; idle]).
  by exists healthy_port.
Defined.

(** *** The emergency stop *)

Lemma send_command_healthy c (a : Arduino.ArduinoComm) :
  Arduino.is_valid (Some c) = true → Arduino.healthy a →
  Arduino.last_command (Arduino.send_command (Some c) a).1.2 = Some c ∧
  Arduino.healthy (Arduino.send_command (Some c) a).1.2.
Proof.
  intros Hv Hh.
  destruct (send_command_cases (Some c) a)
    as [[Hv' _] | (c' & [= <-] & _ & [[Hl Hr] | [(_ & _ & Hr) | (_ & _ & s & Hs & _ & [[Hw Hr] | [Hw Hr]])]])];
    [congruence | rewrite Hr; simpl..].
  - done.
  - done.
  - split; [done|]. intros s' [= <-]. unfold Arduino.write.
    rewrite (Hh s Hs). simpl. by apply Hh.
  - unfold Arduino.write in Hw. by rewrite (Hh s Hs) in Hw.
Qed.

Lemma send_command_healthy_any command (a : Arduino.ArduinoComm) :
  Arduino.healthy a → Arduino.healthy (Arduino.send_command command a).1.2.
Proof.
  intros Hh. destruct (Arduino.is_valid command) eqn:Hv.
  - destruct command as [c|]; [|done]. by apply send_command_healthy.
  - by rewrite send_command_invalid.
Qed.

(** An iteration whose command is not new and whose key is not the space
    bar leaves the dispatcher as it is. *)
Lemma cycle_quiet_arduino cfg self i p :
  frames i = Some p → (decide_cycle cfg self p).1 = current_command self →
  key i ≠ 32%Z → arduino (cycle cfg self i).1.2 = arduino self.
Proof.
  intros Hf Heq Hk. unfold cycle. rewrite Hf.
  pose proof (decide_cycle_arduino cfg self p) as Ha.
  pose proof (decide_cycle_current cfg self p) as [Hc _].
  destruct (decide_cycle cfg self p) as [final self1]. simpl in *.
  unfold forward. rewrite bool_decide_eq_false_2 by (intros Hne; congruence).
  unfold handle_keyboard.
  destruct (dispatch self1 (Some "STOP")) as [self2 tr].
  rewrite (bool_decide_eq_false_2 (key i = 32%Z)) by done.
  repeat case_bool_decide; done.
Qed.

Lemma loop_quiet_arduino cfg inputs : ∀ self,
  Forall (λ i, key i ≠ 32%Z) inputs →
  Forall (λ c, c = current_command self) (finals cfg self inputs) →
  arduino (loop cfg self inputs).1 = arduino self.
Proof.
  induction inputs as [|i rest IH]; intros self Hkeys Hall; [done|].
  apply Forall_cons in Hkeys as [Hk Hrest]. cbn [loop finals] in *.
  destruct (running self); [|done].
  destruct (frames i) as [p|] eqn:Hf.
  - pose proof (cycle_spec cfg self i p Hf) as (_ & _ & Hc & _).
    pose proof (cycle_quiet_arduino cfg self i p Hf) as Hq.
    destruct (cycle cfg self i) as [[continue self1] tr1]. simpl in *.
    destruct continue.
    + apply Forall_cons in Hall as [Heq Hall]. rewrite Heq in Hc.
      specialize (IH self1 Hrest). rewrite Hc in IH. specialize (IH Hall).
      destruct (loop cfg self1 rest) as [self2 tr2]. simpl in *.
      rewrite IH. by apply Hq.
    + apply Forall_cons in Hall as [Heq _]. simpl. by apply Hq.
  - rewrite (cycle_no_frames cfg self i Hf) in *. simpl in *.
    specialize (IH self Hrest Hall). by destruct (loop cfg self rest).
Qed.

(** X10: the emergency stop latches.  On a port whose writes do not
    raise, an iteration with the space bar down leaves STOP as the
    dispatcher's last command while the loop's own [current_command] is
    the arbiter's command; as long as the arbiter then repeats that
    command (and the space bar is up), nothing is sent, whatever the
    command is: the dispatcher's last command stays STOP. *)
Theorem emergency_stop_latches cfg self i p rest :
  frames i = Some p → key i = 32%Z → Arduino.healthy (arduino self) →
  Forall (λ j, key j ≠ 32%Z) rest →
  Forall (λ c, c = (decide_cycle cfg self p).1) (finals cfg (cycle cfg self i).1.2 rest) →
  current_command (cycle cfg self i).1.2 = (decide_cycle cfg self p).1 ∧
  Arduino.last_command (arduino (cycle cfg self i).1.2) = Some "STOP" ∧
  (loop cfg (cycle cfg self i).1.2 rest).2 = [] ∧
  Arduino.last_command (arduino (loop cfg (cycle cfg self i).1.2 rest).1) = Some "STOP".
Proof.
  intros Hf Hk Hh Hkeys Hall.
  pose proof (cycle_spec cfg self i p Hf) as (_ & _ & Hc & _).
  assert (Arduino.last_command (arduino (cycle cfg self i).1.2) = Some "STOP") as Hlast.
  { unfold cycle. rewrite Hf, Hk.
    pose proof (decide_cycle_arduino cfg self p) as Ha.
    destruct (decide_cycle cfg self p) as [final self1]. simpl in Ha.
    rewrite <- Ha in Hh.
    assert (Arduino.healthy (arduino (forward self1 final).1)) as Hh1.
    { unfold forward, dispatch.
      pose proof (send_command_healthy_any final (arduino self1) Hh) as Hs.
      destruct (Arduino.send_command final (arduino self1)) as [[r a] evs].
      by case_bool_decide. }
    destruct (forward self1 final) as [self2 tr1]. simpl in Hh1.
    unfold handle_keyboard, dispatch.
    pose proof (send_command_healthy "STOP" (arduino self2) eq_refl Hh1) as [Hl _].
    destruct (Arduino.send_command (Some "STOP") (arduino self2)) as [[r a] evs].
    by simpl in *. }
  split; [done|]. split; [done|].
  rewrite <- Hc in Hall.
  destruct (loop_spec cfg rest (cycle cfg self i).1.2 Hkeys) as [_ Hquiet].
  split; [by apply Hquiet|].
  by rewrite (loop_quiet_arduino cfg rest _ Hkeys Hall).
Qed.

Lemma emergency_stop_latches_witness :
  current_command (cycle example_config started marker_left_emergency).1.2 = Some "RIGHT" ∧
  Arduino.last_command (arduino (cycle example_config started marker_left_emergency).1.2)
  = Some "STOP" ∧
  (loop example_config (cycle example_config started marker_left_emergency).1.2
        [marker_left; marker_left]).2 = [] ∧
  Arduino.last_command
    (arduino (loop example_config (cycle example_config started marker_left_emergency).1.2
                   [marker_left; marker_left]).1) = Some "STOP".
Proof.
  apply (emergency_stop_latches example_config started marker_left_emergency
           {| sector_status := all_clear;
              aruco_result := marker "LEFT" (Some 0.7%float); now := 0.2 |}
           [marker_left; marker_left]).
  - reflexivity.
  - reflexivity.
  - intros s [= <-]. reflexivity.
  - repeat (apply Forall_cons; split; [discriminate|]). apply Forall_nil_2.
  - repeat (apply Forall_cons; split; [reflexivity|]). apply Forall_nil_2.
Defined.

End ControlLoopInvariants.

(** ** The classifier's dictionary and the avoidance controller at rest *)

Section ClassifierShape.

Import VFH.

Implicit Types (self : KinectVFH) (depth : list (list R)) (ss : gmap string string).

(** All Low means nothing High, for any dictionary. *)
Lemma all_clear_no_obstacle ss : is_all_clear ss = true → obstacle_detected ss = false.
Proof.
  unfold is_all_clear, obstacle_detected. rewrite bool_decide_eq_true.
  intros Hall. apply bool_decide_eq_false. intros (k & v & Hk & ->).
  by specialize (Hall k "High" Hk).
Qed.

(** X11: the dictionary [analyze_sectors] returns, for a depth map or for
    none, has exactly the sector labels as keys and only "High" and "Low"
    as values; on it [is_all_clear] is the negation of the avoidance
    controller's obstacle test, and with the constructor's labels it is
    keyed by the five sector names. *)
Theorem analyze_sectors_shape self depth_frame :
  (∀ label, is_Some (analyze_sectors self depth_frame !! label)
            ↔ label ∈ sector_labels self) ∧
  (∀ label status, analyze_sectors self depth_frame !! label = Some status →
                   status = "High" ∨ status = "Low") ∧
  is_all_clear (analyze_sectors self depth_frame)
  = negb (obstacle_detected (analyze_sectors self depth_frame)) ∧
  (sector_labels self = labels → keyed_by_labels (analyze_sectors self depth_frame)).
Proof.
  destruct (analyze_sectors_keys_values self depth_frame) as [Hdom Hval].
  split; [done|]. split; [done|]. split.
  - destruct (obstacle_detected _) eqn:Hobs; simpl.
    + apply not_true_is_false. intros Hclear.
      apply all_clear_no_obstacle in Hclear. congruence.
    + unfold is_all_clear. apply bool_decide_eq_true. intros k v Hk.
      destruct (Hval k v Hk) as [-> | ->]; [|done].
      apply bool_decide_eq_false in Hobs. destruct Hobs. by exists k, "High".
  - intros Hlabels k v Hk. rewrite <- Hlabels. apply Hdom. by exists v.
Qed.

Lemma analyze_sectors_shape_witness :
  keyed_by_labels (analyze_sectors (init_default 0) (Some scan_line)).
Proof.
  by apply (analyze_sectors_shape (init_default 0) (Some scan_line)).
Defined.

(** X12: with no sector "High" (in particular when [is_all_clear] holds)
    [get_vfh_command] returns FORWARD and leaves the controller going
    FORWARD; the timer restarts only when the controller was not already
    going FORWARD, and the pending turn direction is kept. *)
Theorem get_vfh_command_clear self ss now :
  is_all_clear ss = true ∨ obstacle_detected ss = false →
  (get_vfh_command self ss now).1 = Some "FORWARD" ∧
  current_command (get_vfh_command self ss now).2 = Some "FORWARD" ∧
  turn_direction (get_vfh_command self ss now).2 = turn_direction self ∧
  command_start_time (get_vfh_command self ss now).2
  = (if decide (current_command self = Some "FORWARD") then command_start_time self
     else now).
Proof.
  intros Hclear.
  assert (obstacle_detected ss = false) as Hobs
    by (destruct Hclear; [by apply all_clear_no_obstacle | done]).
  unfold get_vfh_command. rewrite Hobs. simpl.
  case_bool_decide as Hc; case_decide; done.
Qed.

Lemma get_vfh_command_clear_witness :
  (get_vfh_command
     (get_vfh_command (init_default 0) left_front_blocked 0.5).2
     (analyze_sectors (init_default 0) None) 0.6).1 = Some "FORWARD" ∧
  command_start_time
    (get_vfh_command
       (get_vfh_command (init_default 0) left_front_blocked 0.5).2
       (analyze_sectors (init_default 0) None) 0.6).2 = 0.6%float.
Proof.
  destruct (get_vfh_command_clear
              (get_vfh_command (init_default 0) left_front_blocked 0.5).2
              (analyze_sectors (init_default 0) None) 0.6) as (Hr & _ & _ & Ht).
  { left. reflexivity. }
  split; [exact Hr|]. rewrite Ht. reflexivity.
Defined.

(** X13: the azimuth bins do not overlap: with a positive number of
    sectors, a point that falls into one sector falls into no other. *)
Theorem sectors_disjoint self (c : nat) (z : R) (i j : nat) :
  (0 < num_sectors self)%Z → i ≠ j →
  (theta_min self i <= azimuth self c z < theta_max self i)%R →
  ¬ (theta_min self j <= azimuth self c z < theta_max self j)%R.
Proof.
  unfold theta_min, theta_max. intros Hn Hne [Hi1 Hi2] [Hj1 Hj2].
  assert (0 < PI / IZR (num_sectors self))%R as Hw.
  { apply Rdiv_lt_0_compat; [apply PI_RGT_0 | by apply IZR_lt]. }
  assert (INR i < INR (j + 1))%R as Hij by nra.
  assert (INR j < INR (i + 1))%R as Hji by nra.
  apply INR_lt in Hij, Hji. lia.
Qed.

Lemma scan_line_azimuth_bin :
  (theta_min (init_default 0) 0 <= azimuth (init_default 0) 320 0.5
   < theta_max (init_default 0) 0)%R.
Proof.
  rewrite azimuth_scan_line. pose proof atan_small as [Hlo Hhi].
  unfold theta_min, theta_max, init_default, init; cbn [num_sectors].
  change (INR 0) with 0%R. change (INR (0 + 1)) with 1%R. lra.
Qed.

(** The return of the scan line lies in the first bin, hence not in the
    centre one. *)
Lemma sectors_disjoint_witness :
  ¬ (theta_min (init_default 0) 2 <= azimuth (init_default 0) 320 0.5
     < theta_max (init_default 0) 2)%R.
Proof.
  apply (sectors_disjoint (init_default 0) 320 0.5 0 2).
  - reflexivity.
  - discriminate.
  - exact scan_line_azimuth_bin.
Defined.

End ClassifierShape.

(** ** The classifier under the constructor's view *)

Section DefaultView.

Import VFH.

Implicit Types (self : KinectVFH) (depth : list (list R)).

(** *** Numeric bounds *)

Lemma tan_06 : (0.61 < tan 0.6)%R.
Proof.
  destruct (pre_sin_bound 0.6 0) as [Hsin _]; [lra..|].
  destruct (pre_cos_bound 0.6 0) as [Hcl Hcos]; [lra..|].
  unfold sin_approx, sin_term in Hsin. unfold cos_approx, cos_term in Hcl, Hcos.
  simpl in Hsin, Hcl, Hcos.
  assert (0 < cos 0.6)%R as Hpos by lra.
  unfold tan. apply (Rmult_lt_reg_r (cos 0.6)); [done|].
  unfold Rdiv. rewrite Rmult_assoc, Rinv_l by lra. lra.
Qed.

Lemma atan_061 : (atan 0.61 < 0.6)%R.
Proof.
  pose proof PI2_3_2 as Hpi.
  apply Rlt_le_trans with (atan (tan 0.6)); [apply atan_increasing, tan_06|].
  right. apply atan_tan. lra.
Qed.

Lemma atan_within (u : R) : (- 0.61 <= u <= 0.61)%R → (- 0.6 < atan u < 0.6)%R.
Proof.
  intros [Hlo Hhi]. pose proof atan_061 as Hb.
  pose proof (atan_opp 0.61) as Hopp. split.
  - destruct (Req_dec u (Ropp 0.61)) as [-> | Hne]; [lra|].
    assert (atan (Ropp 0.61) < atan u)%R by (apply atan_increasing; lra). lra.
  - destruct (Req_dec u 0.61) as [-> | Hne]; [done|].
    assert (atan u < atan 0.61)%R by (apply atan_increasing; lra). lra.
Qed.

Lemma mod_negative (a : R) : (- PI <= a < 0)%R → Np.mod_ a PI = (a + PI)%R.
Proof.
  intros [Hlo Hhi]. unfold Np.mod_. pose proof PI_RGT_0 as Hpi.
  assert (- 1 <= a / PI < 0)%R as [Hq0 Hq1].
  { split.
    - apply (Rmult_le_reg_r PI); [done|]. unfold Rdiv.
      rewrite Rmult_assoc, Rinv_l by lra. lra.
    - apply (Rmult_lt_reg_r PI); [done|]. unfold Rdiv.
      rewrite Rmult_assoc, Rinv_l by lra. lra. }
  rewrite <- (Int_part_spec (a / PI) (-1)) by (simpl; lra). simpl. lra.
Qed.

(** *** Where a column lands *)

Lemma INR_le_639 (c : nat) : (c ≤ 639)%nat → (0 <= INR c <= 639)%R.
Proof.
  intros Hc. split; [apply pos_INR|].
  rewrite INR_IZR_INZ. apply IZR_le. lia.
Qed.

Lemma INR_ge_320 (c : nat) : (320 ≤ c)%nat → (320 <= INR c)%R.
Proof. intros Hc. rewrite INR_IZR_INZ. apply IZR_le. lia. Qed.

Lemma INR_le_319 (c : nat) : (c ≤ 319)%nat → (INR c <= 319)%R.
Proof. intros Hc. rewrite INR_IZR_INZ. apply IZR_le. lia. Qed.

(** Under the constructor's view the azimuth of a valid point is the
    arc tangent of its normalised column offset, reduced modulo pi. *)
Lemma azimuth_default self (c : nat) (z : R) :
  default_view self → (0 < z)%R →
  azimuth self c z = Np.mod_ (atan ((INR c - 319.5) / 525)) PI.
Proof.
  intros (Hcx & Hfx & Hyaw & _) Hz. unfold azimuth. rewrite Hcx, Hfx, Hyaw.
  replace (Np.radians 0) with 0%R by (unfold Np.radians; lra).
  rewrite cos_0, sin_0. unfold Np.arctan2. rewrite decide_True by lra.
  f_equal. f_equal. field. lra.
Qed.

Lemma azimuth_right_half self (c : nat) (z : R) :
  default_view self → (0 < z)%R → (320 ≤ c ≤ 639)%nat →
  (0 < azimuth self c z < 0.6)%R.
Proof.
  intros Hview Hz [Hlo Hhi]. rewrite azimuth_default by done.
  pose proof (INR_ge_320 c Hlo). pose proof (INR_le_639 c Hhi) as [_ ?].
  pose proof PI2_3_2.
  assert (0 < (INR c - 319.5) / 525 <= 0.61)%R as [Hu0 Hu1] by lra.
  pose proof (atan_within ((INR c - 319.5) / 525)) as [_ Hb]; [lra|].
  assert (0 < atan ((INR c - 319.5) / 525))%R
    by (rewrite <- atan_0; by apply atan_increasing).
  rewrite mod_small; lra.
Qed.

Lemma azimuth_left_half self (c : nat) (z : R) :
  default_view self → (0 < z)%R → (c ≤ 319)%nat →
  (PI - 0.6 < azimuth self c z < PI)%R.
Proof.
  intros Hview Hz Hhi. rewrite azimuth_default by done.
  pose proof (INR_le_319 c Hhi). pose proof (pos_INR c).
  pose proof PI2_3_2.
  assert (- 0.61 <= (INR c - 319.5) / 525 < 0)%R as [Hu0 Hu1] by lra.
  pose proof (atan_within ((INR c - 319.5) / 525)) as [Hb _]; [lra|].
  assert (atan ((INR c - 319.5) / 525) < 0)%R
    by (rewrite <- atan_0; by apply atan_increasing).
  rewrite mod_negative; lra.
Qed.

Lemma sector_bounds_default self (i : nat) :
  default_view self →
  theta_min self i = (INR i * (PI / 5))%R ∧ theta_max self i = (INR (i + 1) * (PI / 5))%R.
Proof. intros (_ & _ & _ & Hn & _). unfold theta_min, theta_max. by rewrite Hn. Qed.

Lemma return_column depth (c : nat) (z : R) :
  rectangular depth → (Np.ncols depth ≤ 640)%nat → return_at depth c z → (c ≤ 639)%nat.
Proof.
  intros Hrect Hw (r & row & Hr & Hc & _).
  apply list_elem_of_lookup_2 in Hr. unfold rectangular in Hrect.
  rewrite Forall_forall in Hrect. specialize (Hrect row Hr).
  apply lookup_lt_Some in Hc. lia.
Qed.

Lemma assigned_return self depth (i : nat) (z : R) :
  assigned self depth i z
  ↔ ∃ c, return_at depth c z ∧
         (theta_min self i <= azimuth self c z < theta_max self i)%R.
Proof.
  unfold assigned, return_at. split.
  - intros (r & c & row & Hr & Hc & Hz & Hlo & Hhi). exists c. split; [|done].
    by exists r, row.
  - intros (c & (r & row & Hr & Hc & Hz) & Hlo & Hhi). by exists r, c, row.
Qed.

(** The three middle sectors get no point. *)
Lemma middle_sectors_empty self depth (i : nat) (z : R) :
  default_view self → rectangular depth → (Np.ncols depth ≤ 640)%nat →
  (1 ≤ i ≤ 3)%nat → ¬ assigned self depth i z.
Proof.
  intros Hview Hrect Hw Hi Hass. apply assigned_return in Hass as (c & Hret & Hlo & Hhi).
  pose proof (return_column depth c z Hrect Hw Hret) as Hc.
  destruct (sector_bounds_default self i Hview) as [Hmin Hmax].
  rewrite Hmin in Hlo. rewrite Hmax in Hhi.
  assert (1 <= INR i)%R by (change 1%R with (INR 1); apply le_INR; lia).
  assert (INR (i + 1) <= 4)%R
    by (rewrite INR_IZR_INZ; apply IZR_le; lia).
  pose proof PI2_3_2. destruct Hret as (r & row & _ & _ & Hz).
  assert (PI / 5 <= INR i * (PI / 5))%R by nra.
  assert (INR (i + 1) * (PI / 5) <= 4 * (PI / 5))%R by nra.
  destruct (le_lt_dec 320 c).
  - pose proof (azimuth_right_half self c z Hview Hz ltac:(lia)). lra.
  - pose proof (azimuth_left_half self c z Hview Hz ltac:(lia)). lra.
Qed.

Lemma first_sector_assigned self depth (z : R) :
  default_view self → rectangular depth → (Np.ncols depth ≤ 640)%nat →
  assigned self depth 0 z ↔ ∃ c, return_at depth c z ∧ (320 ≤ c)%nat.
Proof.
  intros Hview Hrect Hw. rewrite assigned_return.
  destruct (sector_bounds_default self 0 Hview) as [-> ->].
  change (INR 0) with 0%R. change (INR (0 + 1)) with 1%R.
  pose proof PI2_3_2. split.
  - intros (c & Hret & Hlo & Hhi). exists c. split; [done|].
    destruct Hret as (r & row & _ & _ & Hz).
    destruct (le_lt_dec 320 c); [done|].
    pose proof (azimuth_left_half self c z Hview Hz ltac:(lia)). lra.
  - intros (c & Hret & Hc). exists c. split; [done|].
    pose proof (return_column depth c z Hrect Hw Hret).
    destruct Hret as (r & row & _ & _ & Hz).
    pose proof (azimuth_right_half self c z Hview Hz ltac:(lia)). lra.
Qed.

Lemma last_sector_assigned self depth (z : R) :
  default_view self → rectangular depth → (Np.ncols depth ≤ 640)%nat →
  assigned self depth 4 z ↔ ∃ c, return_at depth c z ∧ (c ≤ 319)%nat.
Proof.
  intros Hview Hrect Hw. rewrite assigned_return.
  destruct (sector_bounds_default self 4 Hview) as [-> ->].
  replace (INR 4) with 4%R by (simpl; lra).
  replace (INR (4 + 1)) with 5%R by (simpl; lra).
  pose proof PI2_3_2. split.
  - intros (c & Hret & Hlo & Hhi). exists c. split; [done|].
    pose proof (return_column depth c z Hrect Hw Hret).
    destruct Hret as (r & row & _ & _ & Hz).
    destruct (le_lt_dec 320 c); [|lia].
    pose proof (azimuth_right_half self c z Hview Hz ltac:(lia)). lra.
  - intros (c & Hret & Hc). exists c. split; [done|].
    destruct Hret as (r & row & _ & _ & Hz).
    pose proof (azimuth_left_half self c z Hview Hz Hc). lra.
Qed.

(** A sector is "High" exactly when some point assigned to it is closer
    than the threshold. *)
Lemma sector_state_high_exists self depth (i : nat) :
  sector_state self depth i = "High"
  ↔ ∃ z, assigned self depth i z ∧ (z < threshold_distance self)%R.
Proof.
  rewrite sector_state_high. split.
  - intros (m & [Hm _] & Hlt). by exists m.
  - intros (z & Hz & Hlt).
    set (zs := map snd (List.filter (in_sector self i) (valid_points depth))).
    assert (In z zs) as Hin by (by apply in_sector_depths).
    assert (zs ≠ []) as Hne by (intros Hnil; by rewrite Hnil in Hin).
    destruct (min_spec zs Hne) as [Hmin_in Hmin_le].
    exists (Np.min zs). split; [split|].
    + by apply in_sector_depths.
    + intros z' Hz'. by apply Hmin_le, in_sector_depths.
    + specialize (Hmin_le z Hin). lra.
Qed.

(** X14: with the view the constructor sets (its intrinsics, no yaw,
    five sectors) and a depth map at most 640 pixels wide, only the two
    outer sectors can be "High": the first label, "Kiri", exactly when a
    valid reading closer than the threshold lies in a column from 320 on,
    the last label, "Kanan", exactly when one lies in a column up to 319;
    the three middle sectors are always "Low". *)
Theorem default_view_sectors self depth :
  default_view self → rectangular depth → (Np.ncols depth ≤ 640)%nat →
  (analyze_sectors self (Some depth) !! "Kiri" = Some "High"
   ↔ ∃ c z, return_at depth c z ∧ (320 ≤ c)%nat ∧ (z < threshold_distance self)%R) ∧
  (analyze_sectors self (Some depth) !! "Kanan" = Some "High"
   ↔ ∃ c z, return_at depth c z ∧ (c ≤ 319)%nat ∧ (z < threshold_distance self)%R) ∧
  analyze_sectors self (Some depth) !! "Kiri-Depan" = Some "Low" ∧
  analyze_sectors self (Some depth) !! "Tengah" = Some "Low" ∧
  analyze_sectors self (Some depth) !! "Kanan-Depan" = Some "Low".
Proof.
  intros Hview Hrect Hw.
  assert (sector_labels self = labels) as Hlabels by apply Hview.
  assert (NoDup (sector_labels self)) as Hnd by (rewrite Hlabels; apply labels_NoDup).
  assert (∀ (i : nat) label, labels !! i = Some label →
            analyze_sectors self (Some depth) !! label
            = Some (sector_state self depth i)) as Hpt.
  { intros i label Hi. apply analyze_sectors_pointwise; [done..|]. by rewrite Hlabels. }
  rewrite (Hpt 0%nat "Kiri"), (Hpt 1%nat "Kiri-Depan"), (Hpt 2%nat "Tengah"),
    (Hpt 3%nat "Kanan-Depan"), (Hpt 4%nat "Kanan") by done.
  split; [|split; [|split; [|split]]].
  - split.
    + intros [= Hhigh]. apply sector_state_high_exists in Hhigh as (z & Hz & Hlt).
      apply first_sector_assigned in Hz as (c & Hret & Hc); [|done..].
      by exists c, z.
    + intros (c & z & Hret & Hc & Hlt). f_equal. apply sector_state_high_exists.
      exists z. split; [|done]. apply first_sector_assigned; [done..|]. by exists c.
  - split.
    + intros [= Hhigh]. apply sector_state_high_exists in Hhigh as (z & Hz & Hlt).
      apply last_sector_assigned in Hz as (c & Hret & Hc); [|done..].
      by exists c, z.
    + intros (c & z & Hret & Hc & Hlt). f_equal. apply sector_state_high_exists.
      exists z. split; [|done]. apply last_sector_assigned; [done..|]. by exists c.
  - f_equal. apply sector_state_empty. intros z.
    apply middle_sectors_empty; [done..|lia].
  - f_equal. apply sector_state_empty. intros z.
    apply middle_sectors_empty; [done..|lia].
  - f_equal. apply sector_state_empty. intros z.
    apply middle_sectors_empty; [done..|lia].
Qed.

Lemma init_default_view t0 : default_view (init_default t0).
Proof. unfold default_view, init_default, init. simpl. repeat split; lra. Qed.

Lemma scan_line_width : Np.ncols scan_line = 640%nat.
Proof.
  unfold scan_line, Np.ncols. by rewrite !length_app, !length_replicate.
Qed.

(** The scan line, whose return is in column 320: the centre is "Low"
    and so is "Kanan". *)
Lemma default_view_sectors_witness :
  analyze_sectors (init_default 0) (Some scan_line) !! "Tengah" = Some "Low" ∧
  analyze_sectors (init_default 0) (Some scan_line) !! "Kanan" ≠ Some "High".
Proof.
  destruct (default_view_sectors (init_default 0) scan_line)
    as (_ & Hkanan & _ & Htengah & _).
  - apply init_default_view.
  - exact scan_line_rectangular.
  - by rewrite scan_line_width.
  - split; [exact Htengah|]. intros Hhigh. apply Hkanan in Hhigh as (c & z & Hret & Hc & _).
    destruct Hret as (r & row & Hr & Hrow & Hz). unfold scan_line in Hr.
    remember (replicate 320 0%R ++ [0.5%R] ++ replicate 319 0%R) as row0 eqn:Hrow0.
    destruct r as [|r]; [|by destruct r]. injection Hr as <-. subst row0.
    rewrite lookup_app_l in Hrow by (rewrite length_replicate; lia).
    apply lookup_replicate in Hrow as [-> _]. lra.
Defined.

End DefaultView.

(** ** The polar histogram *)

Section Histogram.

Import VFH.

Implicit Types (self : KinectVFH) (depth : list (list R)).

Lemma foldl_list_insert (f : list R → nat → list R) (g : nat → R) :
  (∀ h i, f h i = <[i := g i]> h) →
  ∀ (m k : nat) (h : list R),
    (k + m ≤ length h)%nat →
    length (foldl f h (seq k m)) = length h ∧
    ∀ j : nat, foldl f h (seq k m) !! j
               = if decide (k ≤ j < k + m)%nat then Some (g j) else h !! j.
Proof.
  intros Hf. induction m as [|m IH]; intros k h Hlen.
  - split; [done|]. intros j. simpl. case_decide; [lia | done].
  - simpl. rewrite Hf.
    destruct (IH (S k) (<[k := g k]> h)) as [IHlen IHlook].
    { rewrite length_insert. lia. }
    split; [by rewrite IHlen, length_insert|].
    intros j. rewrite IHlook. repeat case_decide; try lia; try done.
    + assert (j = k) as -> by lia. apply list_lookup_insert_eq. lia.
    + apply list_lookup_insert_ne. lia.
Qed.

(** The array program computes the pointwise entries. *)
Lemma calculate_histogram_pointwise self depth (i : nat) :
  rectangular depth →
  length (calculate_histogram self (Some depth)) = Z.to_nat (num_sectors self) ∧
  calculate_histogram self (Some depth) !! i
  = if decide (i < Z.to_nat (num_sectors self))%nat
    then Some (histogram_entry self depth i) else None.
Proof.
  intros Hrect. unfold calculate_histogram. cbv zeta.
  match goal with |- context [foldl ?f _ _] =>
    assert (∀ h j, f h j = <[j := histogram_entry self depth j]> h) as Hf
  end.
  { intros h j.
    rewrite ravel_map, ravel_points, (ravel_meshgrid depth (Np.ncols depth) Hrect).
    rewrite !map_map, !select_map. fold (valid_points depth).
    rewrite !zip_with_map, !map_map, select_map.
    rewrite any_existsb.
    change ((if existsb (in_sector self j) (valid_points depth)
             then <[j := if bool_decide
                              (Np.min (map snd (List.filter (in_sector self j)
                                                            (valid_points depth)))
                               < 2)%R
                         then Np.min (map snd (List.filter (in_sector self j)
                                                           (valid_points depth)))
                         else 2%R]> h
             else <[j := 2%R]> h)
            = <[j := histogram_entry self depth j]> h).
    unfold histogram_entry. by destruct (existsb _ _). }
  destruct (foldl_list_insert _ _ Hf (Z.to_nat (num_sectors self)) 0
              (replicate (Z.to_nat (num_sectors self)) 0%R)) as [Hlen Hlook].
  { by rewrite length_replicate. }
  rewrite length_replicate in Hlen. split; [exact Hlen|].
  rewrite Hlook. repeat case_decide; try lia; try done.
  apply lookup_replicate_None. lia.
Qed.

Lemma histogram_entry_range self depth (i : nat) :
  (0 < histogram_entry self depth i <= 2)%R.
Proof.
  unfold histogram_entry.
  set (zs := map snd (List.filter (in_sector self i) (valid_points depth))).
  destruct (existsb _ _) eqn:Hany; [|lra].
  case_bool_decide as Hlt; [|lra]. split; [|lra].
  assert (zs ≠ []) as Hne.
  { apply existsb_exists in Hany as (pt & Hin & Hsec).
    intros Hnil. assert (In pt.2 zs) as Habs; [|by rewrite Hnil in Habs].
    apply in_map, filter_In. done. }
  destruct (min_spec zs Hne) as [Hin _].
  apply in_sector_depths in Hin as (r & c & row & _ & _ & Hpos & _). done.
Qed.

(** X15: with a number of sectors that is not negative and a depth map,
    [calculate_histogram] returns one entry per sector ([num_sectors] of
    them), each above 0 and at most 2; without a depth map it returns as
    many zeros. *)
Theorem calculate_histogram_range self depth :
  (0 ≤ num_sectors self)%Z → rectangular depth →
  length (calculate_histogram self (Some depth)) = Z.to_nat (num_sectors self) ∧
  (∀ (i : nat) e, calculate_histogram self (Some depth) !! i = Some e →
                  (0 < e <= 2)%R) ∧
  calculate_histogram self None = replicate (Z.to_nat (num_sectors self)) 0%R.
Proof.
  intros _ Hrect. split; [|split; [|done]].
  - by destruct (calculate_histogram_pointwise self depth 0 Hrect).
  - intros i e. destruct (calculate_histogram_pointwise self depth i Hrect) as [_ ->].
    case_decide; [|done]. intros [= <-]. apply histogram_entry_range.
Qed.

Lemma calculate_histogram_range_witness :
  length (calculate_histogram (init_default 0) (Some scan_line)) = 5%nat ∧
  (∀ (i : nat) e, calculate_histogram (init_default 0) (Some scan_line) !! i = Some e →
                  (0 < e <= 2)%R) ∧
  calculate_histogram (init_default 0) None = [0; 0; 0; 0; 0]%R.
Proof.
  apply (calculate_histogram_range (init_default 0) scan_line); [done|].
  apply scan_line_rectangular.
Defined.

(** X16: the histogram and the sector status agree.  For the sector of
    the [i]-th label, with a threshold of at most 2, the histogram entry
    is below [threshold_distance] exactly when [analyze_sectors] marks
    the sector "High". *)
Theorem histogram_agrees_with_sectors self depth (i : nat) (label : string) :
  rectangular depth → NoDup (sector_labels self) →
  (threshold_distance self <= 2)%R →
  sector_labels self !! i = Some label → (i < Z.to_nat (num_sectors self))%nat →
  ∃ e, calculate_histogram self (Some depth) !! i = Some e ∧
       ((e < threshold_distance self)%R
        ↔ analyze_sectors self (Some depth) !! label = Some "High").
Proof.
  intros Hrect Hnd Hthr Hi Hlt.
  destruct (calculate_histogram_pointwise self depth i Hrect) as [_ Hlook].
  rewrite decide_True in Hlook by done.
  exists (histogram_entry self depth i). split; [done|].
  rewrite (analyze_sectors_pointwise self depth i label Hrect Hnd Hi).
  unfold histogram_entry, sector_state.
  destruct (existsb _ _); [|split; [lra | done]].
  repeat case_bool_decide; split; try done; try lra.
Qed.

Lemma histogram_agrees_with_sectors_witness :
  ∃ e, calculate_histogram (init_default 0) (Some scan_line) !! 0%nat = Some e ∧
       ((e < 1)%R
        ↔ analyze_sectors (init_default 0) (Some scan_line) !! "Kiri" = Some "High").
Proof.
  apply (histogram_agrees_with_sectors (init_default 0) scan_line 0 "Kiri").
  - exact scan_line_rectangular.
  - exact labels_NoDup.
  - unfold init_default, init; cbn [threshold_distance]. lra.
  - reflexivity.
  - unfold init_default, init; cbn [num_sectors]. simpl. lia.
Defined.

End Histogram.

(** ** The marker observation: zone, steering, distance *)

Section Marker.

Import Aruco.

Implicit Types (self : ArucoTracker) (depth : list (list R)).

(** X17: the steering command of an observation.  It is [None] exactly
    when no marker is detected and never STOP; for the observation that
    [detect] builds from a marker centred at column [x] it is RIGHT when
    [x] is left of the left bound, else LEFT when [x] is right of the
    right bound, else FORWARD. *)
Theorem tracking_command_of_detection self (found : option (Z * Z * Z)) :
  (∀ r : result, (get_tracking_command r = None ↔ detected r = false) ∧
                 get_tracking_command r ≠ Some "STOP") ∧
  get_tracking_command (detect self found)
  = match found with
    | None => None
    | Some (_, x, _) =>
      Some (if decide (x < left_bound self)%Z then "RIGHT"
            else if decide (right_bound self < x)%Z then "LEFT"
            else "FORWARD")
    end.
Proof.
  split.
  - intros r. unfold get_tracking_command.
    destruct (detected r); simpl; repeat case_bool_decide; split; done.
  - destruct found as [[[id x] y]|]; [|done].
    unfold get_tracking_command, detect, _get_zone. simpl.
    repeat case_decide; try lia; done.
Qed.

(** *** The distance sample *)

Lemma elem_of_slice {A} (lo hi : nat) (a : list A) (x : A) :
  x ∈ slice lo hi a ↔ ∃ j : nat, (lo ≤ j < hi)%nat ∧ a !! j = Some x.
Proof.
  unfold slice. rewrite elem_of_take. split.
  - intros (i & Hi & Hlt). rewrite lookup_drop in Hi. exists (lo + i)%nat.
    split; [lia | done].
  - intros (j & Hj & Hx). exists (j - lo)%nat. rewrite lookup_drop.
    replace (lo + (j - lo))%nat with j by lia. split; [done | lia].
Qed.

Lemma rectangular_row depth (r : nat) (row : list R) :
  VFH.rectangular depth → depth !! r = Some row → length row = Np.ncols depth.
Proof.
  intros Hrect Hr. unfold VFH.rectangular in Hrect. rewrite Forall_forall in Hrect.
  apply Hrect. by eapply list_elem_of_lookup_2.
Qed.

(** The valid depths of the window are the sampled readings. *)
Lemma window_sampled depth (center_x center_y : Z) (radius : nat) (z : R) :
  VFH.rectangular depth →
  In z (List.filter (λ v, bool_decide (0 < v)%R)
          (concat (map (slice (Z.to_nat (Z.max 0 (center_x - Z.of_nat radius)))
                              (Z.to_nat (Z.min (Z.of_nat (Np.ncols depth))
                                               (center_x + Z.of_nat radius))))
                       (slice (Z.to_nat (Z.max 0 (center_y - Z.of_nat radius)))
                              (Z.to_nat (Z.min (Z.of_nat (length depth))
                                               (center_y + Z.of_nat radius)))
                              depth))))
  ↔ sampled depth center_x center_y radius z.
Proof.
  intros Hrect. rewrite filter_In, bool_decide_eq_true, in_concat. unfold sampled.
  split.
  - intros [(cells & Hcells & Hz) Hpos].
    apply in_map_iff in Hcells as (row & <- & Hrow).
    apply list_elem_of_In, elem_of_slice in Hrow as (r & Hr & Hlook).
    apply list_elem_of_In, elem_of_slice in Hz as (c & Hc & Hcell).
    pose proof (rectangular_row depth r row Hrect Hlook) as Hlen.
    apply lookup_lt_Some in Hlook as Hrlt. apply lookup_lt_Some in Hcell as Hclt.
    exists r, c, row. repeat split; try done; lia.
  - intros (r & c & row & Hlook & Hcell & Hpos & Hr & Hc). split; [|done].
    pose proof (rectangular_row depth r row Hrect Hlook) as Hlen.
    apply lookup_lt_Some in Hlook as Hrlt. apply lookup_lt_Some in Hcell as Hclt.
    eexists. split.
    + apply in_map. apply list_elem_of_In, elem_of_slice. exists r.
      split; [lia | exact Hlook].
    + apply list_elem_of_In, elem_of_slice. exists c. split; [lia | exact Hcell].
Qed.

(** The median of a non-empty array lies between two of its entries. *)
Lemma median_between (a : list R) :
  a ≠ [] → ∃ lo hi, In lo a ∧ In hi a ∧ (lo <= median a <= hi)%R.
Proof.
  intros Hne. unfold median.
  pose proof (merge_sort_Permutation Rle a) as Hperm.
  set (sorted := merge_sort Rle a) in *.
  assert (∀ x, x ∈ sorted → In x a) as Hin
    by (intros x Hx; apply list_elem_of_In; by rewrite <- Hperm).
  assert (0 < length sorted)%nat as Hlen.
  { rewrite (Permutation_length Hperm). destruct a; [done | simpl; lia]. }
  assert (length sorted / 2 < length sorted)%nat as Hhalf
    by (apply Nat.div_lt; lia).
  destruct (nth_lookup_or_length sorted (length sorted / 2) 0%R) as [Hmid | ?]; [|lia].
  apply list_elem_of_lookup_2, Hin in Hmid.
  destruct (Nat.even (length sorted)).
  - destruct (nth_lookup_or_length sorted (length sorted / 2 - 1) 0%R) as [Hlow | ?];
      [|lia].
    apply list_elem_of_lookup_2, Hin in Hlow.
    set (x1 := nth (length sorted / 2 - 1) sorted 0%R) in *.
    set (x2 := nth (length sorted / 2) sorted 0%R) in *.
    destruct (Rle_dec x1 x2).
    + exists x1, x2. repeat split; try done; lra.
    + exists x2, x1. repeat split; try done; lra.
  - eexists _, _. repeat split; try exact Hmid; lra.
Qed.

(** X18: [calculate_distance] on a depth map.  When it returns a
    distance, the centre lies inside the frame and the distance is
    positive and lies between two valid readings of the window (rows
    [center_y - radius] up to but not including [center_y + radius], and
    columns likewise); when it returns [None], the centre lies outside the
    frame or the window holds no valid reading.  Without a depth map it
    returns [None]. *)
Theorem calculate_distance_spec depth (center_x center_y : Z) (radius : nat) :
  VFH.rectangular depth →
  match calculate_distance (Some depth) center_x center_y radius with
  | Some d =>
    ¬ outside depth center_x center_y ∧ (0 < d)%R ∧
    ∃ lo hi, sampled depth center_x center_y radius lo ∧
             sampled depth center_x center_y radius hi ∧ (lo <= d <= hi)%R
  | None =>
    outside depth center_x center_y ∨ ∀ z, ¬ sampled depth center_x center_y radius z
  end ∧
  calculate_distance None center_x center_y radius = None.
Proof.
  intros Hrect. split; [|done]. unfold calculate_distance. cbv zeta.
  case_decide as Hout; [by left|].
  pose proof (window_sampled depth center_x center_y radius) as Hwin.
  set (valid := List.filter _ _) in *.
  case_decide as Hlen.
  - right. intros z Hz. apply Hwin in Hz; [|done].
    destruct valid; [done | discriminate].
  - split; [done|].
    destruct (median_between valid) as (lo & hi & Hlo & Hhi & Hbetween).
    { intros Hnil. by rewrite Hnil in Hlen. }
    apply Hwin in Hlo, Hhi; [|done..].
    split.
    + destruct Hlo as (_ & _ & _ & _ & _ & Hpos & _). lra.
    + by exists lo, hi.
Qed.

Lemma three_by_three_sampled (v w : R) (z : R) :
  sampled [[0; 0; 0]; [0; v; 0]; [0; 0; w]]%R 1 1 1 z → z = v.
Proof.
  intros (r & c & row & Hr & Hc & Hpos & Hrow & Hcol).
  destruct r as [|[|r]]; [| |lia]; injection Hr as <-.
  - destruct c as [|[|c]]; [| |lia]; injection Hc as <-; lra.
  - destruct c as [|[|c]]; [| |lia]; injection Hc as <-; [lra | done].
Qed.

(** A reading in the middle of the window is returned; a reading one
    pixel down and right of the centre, at distance [radius], is not
    part of the window. *)
Lemma calculate_distance_spec_witness :
  calculate_distance (Some centre_return) 1 1 1 = Some 0.8%R ∧
  calculate_distance (Some corner_return) 1 1 1 = None.
Proof.
  split.
  - destruct (calculate_distance_spec centre_return 1 1 1) as [Hspec _].
    { unfold VFH.rectangular, centre_return. by repeat constructor. }
    destruct (calculate_distance (Some centre_return) 1 1 1) as [d|].
    + destruct Hspec as (_ & _ & lo & hi & Hlo & Hhi & Hd).
      apply (three_by_three_sampled 0.8 0) in Hlo, Hhi. subst lo hi.
      f_equal. lra.
    + exfalso. destruct Hspec as [Hout | Hnone].
      * unfold outside, centre_return in Hout. simpl in Hout. lia.
      * apply (Hnone 0.8%R). exists 1%nat, 1%nat, [0; 0.8; 0]%R.
        repeat split; try done; try lra; lia.
  - destruct (calculate_distance_spec corner_return 1 1 1) as [Hspec _].
    { unfold VFH.rectangular, corner_return. by repeat constructor. }
    destruct (calculate_distance (Some corner_return) 1 1 1) as [d|]; [|done].
    exfalso. destruct Hspec as (_ & _ & lo & _ & Hlo & _).
    pose proof Hlo as (_ & _ & _ & _ & _ & Hpos & _).
    apply (three_by_three_sampled 0 0.8) in Hlo. lra.
Defined.

End Marker.

(** ** The loop and the wire *)

Section LoopWire.

Import Robot.

Implicit Types (cfg : Config) (self : RobotController) (i : Input) (p : Percept).

Lemma in_step_nil self self' : arduino self' = arduino self → in_step self [] self'.
Proof. intros Ha. by split. Qed.

Lemma in_step_dispatch self command :
  in_step self (dispatch self command).2 (dispatch self command).1.
Proof.
  unfold in_step, dispatch.
  destruct (Arduino.send_command command (arduino self)) as [[r a] evs] eqn:Hsend.
  simpl. rewrite dispatches_ports, port_events_ports. simpl. by rewrite Hsend, app_nil_r.
Qed.

Lemma in_step_app self tr1 self1 tr2 self2 :
  in_step self tr1 self1 → in_step self1 tr2 self2 → in_step self (tr1 ++ tr2) self2.
Proof.
  intros [Hp1 Ha1] [Hp2 Ha2]. unfold in_step.
  rewrite dispatches_app, port_events_app, send_all_app. simpl.
  rewrite <- Ha1. by rewrite Hp1, Hp2, Ha2.
Qed.

Lemma in_step_cycle cfg self i : in_step self (cycle cfg self i).2 (cycle cfg self i).1.2.
Proof.
  unfold cycle. destruct (frames i) as [p|]; [|by apply in_step_nil].
  pose proof (decide_cycle_arduino cfg self p) as Ha.
  destruct (decide_cycle cfg self p) as [final self1]. simpl in Ha.
  assert (in_step self (forward self1 final).2 (forward self1 final).1) as Hf.
  { unfold forward. pose proof (in_step_dispatch self1 final) as [Hp Hd].
    destruct (dispatch self1 final) as [self2 tr]. simpl in *.
    case_bool_decide; simpl.
    - unfold in_step. simpl. by rewrite <- Ha.
    - by apply in_step_nil. }
  destruct (forward self1 final) as [self2 tr1]. simpl in Hf.
  assert (in_step self2 (handle_keyboard self2 (key i)).2
                  (handle_keyboard self2 (key i)).1.2) as Hk.
  { unfold handle_keyboard. pose proof (in_step_dispatch self2 (Some "STOP")) as Hd.
    destruct (dispatch self2 (Some "STOP")) as [self3 tr]. simpl in *.
    repeat case_bool_decide; simpl; by try apply in_step_nil. }
  destruct (handle_keyboard self2 (key i)) as [[continue self3] tr2]. simpl in *.
  by eapply in_step_app.
Qed.

Lemma in_step_loop cfg inputs : ∀ self,
  in_step self (loop cfg self inputs).2 (loop cfg self inputs).1.
Proof.
  induction inputs as [|i rest IH]; intros self; [by apply in_step_nil|].
  cbn [loop]. destruct (running self); [|by apply in_step_nil].
  pose proof (in_step_cycle cfg self i) as Hc.
  destruct (cycle cfg self i) as [[continue self1] tr1]. simpl in Hc.
  destruct continue; [|done].
  specialize (IH self1). destruct (loop cfg self1 rest) as [self2 tr2]. simpl in *.
  by eapply in_step_app.
Qed.

(** X19: over the control loop, emergency stops included, the port sees
    exactly what sending the loop's dispatched commands one after the
    other produces; so no two successive payloads handed to
    [serial.write] during the loop are equal, and each is a known
    command followed by a line feed. *)
Theorem loop_wire_discipline cfg self inputs :
  port_events (loop cfg self inputs).2
  = (Arduino.send_all (dispatches (loop cfg self inputs).2) (arduino self)).2 ∧
  Arduino.distinct_neighbours (Arduino.attempts (port_events (loop cfg self inputs).2)) ∧
  Forall (λ data, ∃ c, c ∈ Arduino.valid_commands ∧ data = Arduino.payload c)
         (Arduino.attempts (port_events (loop cfg self inputs).2)).
Proof.
  destruct (in_step_loop cfg inputs self) as [Hp _]. split; [exact Hp|].
  rewrite Hp.
  destruct (wire_discipline_commands (dispatches (loop cfg self inputs).2) (arduino self))
    as (written & Ha & Hv & Hd).
  split.
  - rewrite Ha. by apply (distinct_payloads written (Arduino.last_command (arduino self))).
  - rewrite Ha. apply Forall_fmap. eapply Forall_impl; [exact Hv|].
    intros c Hc. by exists c.
Qed.

End LoopWire.
